(** * Verification of the PyTorch tutorial notebooks

    Two notebooks are embedded here:

    - the sequence-model notebook (LSTM part-of-speech tagger), in
      [Module Tagger];
    - [char_rnn_generation_tutorial.ipynb] (character-level name
      generation), in [Module NameGen].

    Framework calls (layers, autograd, optimiser, the Unicode database) are
    parameters of the sections that use them; the notebooks' own code
    (dictionary builders, one-hot encoders, the sampling loop, the training
    loop, the data guard) is translated function by function. *)

From Stdlib Require Import ZArith NArith String Ascii.
From stdpp Require Import base option list gmap strings fin_maps fin_sets.

Open Scope string_scope.
Open Scope list_scope.

(** ** Python exceptions and fallible computations *)

Inductive exn : Type :=
  | KeyError
  | ValueError
  | IndexError
  | NameError (name : string)
  | TypeError (msg : string)
  | RuntimeError (msg : string).

Inductive result (A : Type) : Type :=
  | Ok (a : A)
  | Raise (e : exn).
Arguments Ok {A} a.
Arguments Raise {A} e.

#[export] Instance result_bind : MBind result := λ A B k r,
  match r with
  | Ok a => k a
  | Raise e => Raise e
  end.

(** A list comprehension [[f x for x in l]] whose body may raise. *)
Fixpoint comprehension {A B} (f : A → result B) (l : list A) : result (list B) :=
  match l with
  | [] => Ok []
  | x :: l' => y ← f x; ys ← comprehension f l'; Ok (y :: ys)
  end.

(** A [for] loop without [break] whose body may raise. *)
Fixpoint for_each {S A} (body : S → A → result S) (s : S) (l : list A)
  : result S :=
  match l with
  | [] => Ok s
  | x :: l' => s' ← body s x; for_each body s' l'
  end.

Definition succeeds {A} (r : result A) : Prop := ∃ a, r = Ok a.

(** ** The sequence-model notebook *)

Module Tagger.

(** *** The incremental index-mapping builder

    [if tok not in to_ix: to_ix[tok] = len(to_ix)], the body shared by the
    loops that fill [word_to_ix] and [char_to_ix]. *)

Section Builder.
Context `{Countable K}.

Definition add_token (to_ix : gmap K nat) (tok : K) : gmap K nat :=
  match to_ix !! tok with
  | Some _ => to_ix
  | None => <[tok := size to_ix]> to_ix
  end.

(** [for sent in corpus: for tok in sent: ...] starting from [{}]. *)
Definition build_index (corpus : list (list K)) : gmap K nat :=
  foldl (λ to_ix sent, foldl add_token to_ix sent) ∅ corpus.

(** [idxs = [to_ix[w] for w in seq]], the first line of the source's
    [prepare_sequence]; a missing key raises [KeyError]. *)
Definition prepare_sequence (seq : list K) (to_ix : gmap K nat)
  : result (list nat) :=
  comprehension
    (λ w, match to_ix !! w with Some i => Ok i | None => Raise KeyError end)
    seq.
End Builder.

(** [torch.tensor(idxs, dtype=torch.long)]: a 64-bit signed tensor holds
    the indices as they are, and the conversion raises a [RuntimeError]
    when one of them does not fit. *)
Definition long_limit : Z := 9223372036854775808.

Definition fits_long (i : nat) : Prop := (Z.of_nat i < long_limit)%Z.

#[global] Instance fits_long_dec i : Decision (fits_long i).
Proof. unfold fits_long. apply _. Defined.

Definition long_tensor (idxs : list nat) : result (list nat) :=
  if decide (Forall fits_long idxs) then Ok idxs
  else Raise (RuntimeError "Overflow when unpacking long").

(** The whole of the source's [prepare_sequence]: the comprehension, then
    [return torch.tensor(idxs, dtype=torch.long)]. *)
Definition prepare_sequence_tensor `{Countable K}
    (seq : list K) (to_ix : gmap K nat) : result (list nat) :=
  idxs ← prepare_sequence seq to_ix;
  long_tensor idxs.

(** *** The hard-coded corpus *)

Definition is_space (c : ascii) : bool :=
  bool_decide (c = " "%char) || bool_decide (c = "009"%char)
  || bool_decide (c = "010"%char) || bool_decide (c = "013"%char)
  || bool_decide (c = "011"%char) || bool_decide (c = "012"%char).

(** [str.split()] without arguments: maximal runs of non-blank characters. *)
Fixpoint split_from (cur : string) (s : string) : list string :=
  match s with
  | EmptyString => if bool_decide (cur = "") then [] else [cur]
  | String c s' =>
      if is_space c
      then (if bool_decide (cur = "") then split_from "" s'
            else cur :: split_from "" s')
      else split_from (cur +:+ String c "") s'
  end.

Definition split (s : string) : list string := split_from "" s.

Definition training_data : list (list string * list string) :=
  [ (split "The dog ate the apple", ["DET"; "NN"; "V"; "DET"; "NN"]);
    (split "Everybody read that book", ["NN"; "V"; "DET"; "NN"]) ].

(** [for sent, tags in training_data: for word in sent: ...] *)
Definition word_to_ix : gmap string nat :=
  foldl (λ to_ix '(sent, tags), foldl add_token to_ix sent) ∅ training_data.

Definition tag_to_ix : gmap string nat :=
  <["V" := 2]> (<["NN" := 1]> (<["DET" := 0]> ∅)).

(** [for sent, _ in training_data: for w in sent: for char in w: ...] *)
Definition char_to_ix : gmap ascii nat :=
  foldl (λ to_ix '(sent, _),
           foldl (λ to_ix w, foldl add_token to_ix (list_ascii_of_string w))
                 to_ix sent)
        ∅ training_data.

Definition prepare_both_sequences (sentence : list string)
    (word_to_ix : gmap string nat) (char_to_ix : gmap ascii nat)
  : result (list nat * list (list nat)) :=
  chars ← comprehension
            (λ w, prepare_sequence (list_ascii_of_string w) char_to_ix)
            sentence;
  words ← prepare_sequence sentence word_to_ix;
  Ok (words, chars).

(** *** The training loop of the tagger

    The model, its forward pass, the loss and the optimiser belong to the
    framework; each call made by the loop is recorded in order. *)

Inductive call : Type :=
  | ZeroGrad
  | InitHidden
  | Forward (sentence_in : list nat)
  | NLLLoss (targets : list nat)
  | Backward
  | OptimizerStep.

#[global] Instance call_eq_dec : EqDecision call.
Proof. solve_decision. Defined.

Section Training.
Variables (Model Scores Loss : Type).
Variable zero_grad : Model → Model.
(** [model.hidden = model.init_hidden()] *)
Variable reset_hidden : Model → Model.
(** [model(sentence_in)]: reads and overwrites [self.hidden]. *)
Variable forward : Model → list nat → Scores * Model.
(** [loss_function = nn.NLLLoss()] *)
Variable loss_function : Scores → list nat → Loss.
Variable backward : Loss → Model → Model.
Variable optimizer_step : Model → Model.

Record trainer : Type := { model : Model; calls : list call }.

(** One pass of the inner loop body. *)
Definition train_sentence (st : trainer) (example : list string * list string)
  : result trainer :=
  let '(sentence, tags) := example in
  let m := zero_grad (model st) in
  let m := reset_hidden m in
  sentence_in ← prepare_sequence sentence word_to_ix;
  targets ← prepare_sequence tags tag_to_ix;
  let '(tag_scores, m) := forward m sentence_in in
  let loss := loss_function tag_scores targets in
  let m := backward loss m in
  let m := optimizer_step m in
  Ok {| model := m;
        calls := calls st ++ [ZeroGrad; InitHidden; Forward sentence_in;
                              NLLLoss targets; Backward; OptimizerStep] |}.

(** [for sentence, tags in training_data: ...] *)
Definition train_epoch (st : trainer) (epoch : nat) : result trainer :=
  for_each train_sentence st training_data.

(** [for epoch in range(300): ...] *)
Definition train (st : trainer) : result trainer :=
  for_each train_epoch st (seq 0 300).
End Training.

(** *** The character-augmented tagger's constructor

    The notebook's global namespace binds names to objects; for the
    constructor only classes and their method-resolution order matter. *)

Inductive pyobj : Type :=
  | PyClass (mro : list string)
  | PyOther.

(** Names bound by the notebook's cells, in execution order up to the cell
    that constructs the character-augmented tagger. *)
Definition notebook_globals : gmap string pyobj :=
  list_to_map
    [ ("torch", PyOther); ("nn", PyOther); ("F", PyOther); ("optim", PyOther);
      ("lstm", PyOther); ("inputs", PyOther); ("hidden", PyOther);
      ("i", PyOther); ("out", PyOther);
      ("prepare_sequence", PyOther); ("training_data", PyOther);
      ("word_to_ix", PyOther); ("sent", PyOther); ("tags", PyOther);
      ("word", PyOther); ("tag_to_ix", PyOther);
      ("EMBEDDING_DIM", PyOther); ("HIDDEN_DIM", PyOther);
      ("LSTMTagger", PyClass ["LSTMTagger"; "Module"; "object"]);
      ("model", PyOther); ("loss_function", PyOther); ("optimizer", PyOther);
      ("tag_scores", PyOther); ("epoch", PyOther); ("sentence", PyOther);
      ("sentence_in", PyOther); ("targets", PyOther); ("loss", PyOther);
      ("CHAR_EMBEDDING", PyOther); ("CHAR_LEVEL_REPRESENTATION_DIM", PyOther);
      ("char_to_ix", PyOther); ("w", PyOther); ("char", PyOther);
      ("_", PyOther); ("prepare_both_sequences", PyOther);
      ("LSTMCharTagger", PyClass ["LSTMCharTagger"; "Module"; "object"]);
      ("get_batch_size", PyOther) ].

(** Evaluating a global name. *)
Definition lookup_name (g : gmap string pyobj) (name : string) : result pyobj :=
  match g !! name with
  | Some o => Ok o
  | None => Raise (NameError name)
  end.

(** [super(T, self)] for [self] an instance of the class named [cls]:
    [T] must be a class in the method-resolution order of [type(self)]. *)
Definition super (g : gmap string pyobj) (T : string) (cls : string)
  : result unit :=
  t ← lookup_name g T;
  match t with
  | PyOther => Raise (TypeError "super() argument 1 must be type")
  | PyClass _ =>
      match g !! cls with
      | Some (PyClass mro) =>
          if bool_decide (T ∈ mro) then Ok ()
          else Raise (TypeError
                 "super(type, obj): obj must be an instance or subtype of type")
      | _ => Raise (NameError cls)
      end
  end.

Record tagger_args : Type := {
  word_embedding_dim : nat;
  hidden_dim : nat;
  vocab_size : nat;
  char_embedding_dim : nat;
  hidden_char_dim : nat;
  charset_size : nat;
  tagset_size : nat
}.

Section CharTagger.
Variable Tagger : Type.
(** The statements of [__init__] after the [super] call (layer
    construction by the framework). *)
Variable init_layers : tagger_args → result Tagger.

(** [LSTMCharTagger.__init__], entered through [LSTMCharTagger(...)]. *)
Definition LSTMCharTagger_init (g : gmap string pyobj) (a : tagger_args)
  : result Tagger :=
  _ ← super g "LSTMTaggerWithChar" "LSTMCharTagger";
  init_layers a.

(** The last cell: the model is built first, then scored. *)
Definition build_and_score {R} (g : gmap string pyobj) (a : tagger_args)
    (score : Tagger → result R) : result R :=
  m ← LSTMCharTagger_init g a;
  score m.
End CharTagger.

End Tagger.

(** ** The name-generation notebook *)

Module NameGen.

(** A Python character is a Unicode code point; a [str] is a sequence of
    them. *)
Abbreviation char := N.
Abbreviation str := (list char).

Definition of_string (s : string) : str :=
  N_of_ascii <$> list_ascii_of_string s.

(** [string.ascii_letters] *)
Definition ascii_letters : string :=
  "abcdefghijklmnopqrstuvwxyzABCDEFGHIJKLMNOPQRSTUVWXYZ".

Definition all_letters : str := of_string (ascii_letters +:+ " .,;'-").

(** [len(all_letters) + 1], the extra index being the EOS marker. *)
Definition n_letters : nat := length all_letters + 1.

(** *** Python sequence primitives *)

(** Resolution of a subscript on a sequence of length [n]: negative
    subscripts count from the end, anything else out of range raises. *)
Definition py_index (n : nat) (i : Z) : result nat :=
  if decide (0 ≤ i < Z.of_nat n)%Z then Ok (Z.to_nat i)
  else if decide (- Z.of_nat n ≤ i < 0)%Z then Ok (Z.to_nat (Z.of_nat n + i))
  else Raise IndexError.

(** [l[i]] *)
Definition getitem {A} (l : list A) (i : Z) : result A :=
  k ← py_index (length l) i;
  match l !! k with
  | Some x => Ok x
  | None => Raise IndexError
  end.

(** [l[i] = ...], the new element computed from the old one so that
    chained subscripts [l[i][j] = v] nest. *)
Definition update_at {A} (l : list A) (i : Z) (f : A → result A)
  : result (list A) :=
  k ← py_index (length l) i;
  match l !! k with
  | Some x => y ← f x; Ok (<[k := y]> l)
  | None => Raise IndexError
  end.

(** [s.find(c)] for a one-character [c]: lowest position, or [-1]. *)
Definition find (s : str) (c : char) : Z :=
  match list_find (λ x, x = c) s with
  | Some (i, _) => Z.of_nat i
  | None => (-1)%Z
  end.

(** [l.index(x)]: lowest position, or [ValueError]. *)
Definition index {A} `{EqDecision A} (l : list A) (x : A) : result nat :=
  match list_find (λ y, y = x) l with
  | Some (i, _) => Ok i
  | None => Raise ValueError
  end.

(** *** Tensors

    [torch.zeros] builds float tensors; the encoders below only ever store
    the values zero and one in them, which are kept as integers here. *)
Abbreviation row := (list Z).
Abbreviation tensor2 := (list row).
Abbreviation tensor3 := (list tensor2).

Definition zeros2 (a b : nat) : tensor2 := replicate a (replicate b 0%Z).
Definition zeros3 (a b c : nat) : tensor3 := replicate a (zeros2 b c).

(** *** Loading the data *)

Definition Data_not_found : string :=
  "Data not found. Make sure that you downloaded data " +:+
  "from https://download.pytorch.org/tutorial/data.zip and extract it to " +:+
  "the current directory.".

Fixpoint split_on (sep : char) (s : str) : list str :=
  match s with
  | [] => [[]]
  | c :: s' =>
      if decide (c = sep) then [] :: split_on sep s'
      else match split_on sep s' with
           | [] => [[c]]
           | w :: ws => (c :: w) :: ws
           end
  end.

Fixpoint drop_while {A} (p : A → bool) (l : list A) : list A :=
  match l with
  | [] => []
  | x :: l' => if p x then drop_while p l' else l
  end.

Section Loading.
(** The Unicode database and [os.path]. *)
Variable normalize_NFD : str → str.
Variable category_is_Mn : char → bool.
Variable isspace : char → bool.
Variable basename : str → str.
Variable splitext : str → str * str.

Definition unicodeToAscii (s : str) : str :=
  filter (λ c, negb (category_is_Mn c) ∧ c ∈ all_letters) (normalize_NFD s).

(** [s.strip()] *)
Definition strip (s : str) : str :=
  reverse (drop_while isspace (reverse (drop_while isspace s))).

(** [readLines], applied to the decoded content of the file. *)
Definition readLines (content : str) : list str :=
  let lines := split_on 10%N (strip content) in
  unicodeToAscii <$> lines.

(** The loop over [findFiles(...)], each file given with its content,
    followed by the guard on [n_categories]. *)
Definition load_data (files : list (str * str))
  : result (gmap str (list str) * list str) :=
  let '(category_lines, all_categories) :=
    foldl (λ '(category_lines, all_categories) '(filename, content),
             let category := (splitext (basename filename)).1 in
             let all_categories := all_categories ++ [category] in
             let lines := readLines content in
             (<[category := lines]> category_lines, all_categories))
          (∅, []) files in
  let n_categories := length all_categories in
  if decide (n_categories = 0) then Raise (RuntimeError Data_not_found)
  else Ok (category_lines, all_categories).
End Loading.

(** *** Encoders *)

Section Encoders.
Variable all_categories : list str.

Definition n_categories : nat := length all_categories.

Definition categoryTensor (category : str) : result tensor2 :=
  li ← index all_categories category;
  let tensor := zeros2 1 n_categories in
  update_at tensor 0 (λ r, update_at r (Z.of_nat li) (λ _, Ok 1%Z)).

Definition inputTensor (line : str) : result tensor3 :=
  let tensor := zeros3 (length line) 1 n_letters in
  for_each
    (λ tensor li,
       letter ← getitem line (Z.of_nat li);
       update_at tensor (Z.of_nat li) (λ m,
         update_at m 0 (λ r,
           update_at r (find all_letters letter) (λ _, Ok 1%Z))))
    tensor (seq 0 (length line)).

Definition targetTensor (line : str) : result (list Z) :=
  letter_indexes ←
    comprehension
      (λ li, letter ← getitem line (Z.of_nat li); Ok (find all_letters letter))
      (seq 1 (length line - 1));
  Ok (letter_indexes ++ [Z.of_nat n_letters - 1]%Z).
End Encoders.

(** *** Sampling *)

Definition max_length : nat := 20.

Section Sampler.
Variable all_categories : list str.

(** The trained network is the framework's: [rnn(category, input, hidden)]
    returns the letter scores and the next hidden state; its dropout layer
    draws from the global random generator, whose state is threaded here.
    [output.topk(1)] followed by [topi[0][0]] is the position of the best
    score. *)
Variables (Hidden Output Rng : Type).
Variable rnn : Rng → tensor2 → tensor2 → Hidden → Output * Hidden * Rng.
Variable initHidden : Hidden.
Variable topk1 : Output → nat.

Record loop_state : Type := {
  input : tensor3;
  hidden : Hidden;
  output_name : str;
  rng : Rng
}.

Inductive flow : Type :=
  | Break (st : loop_state)
  | Continue (st : loop_state).

(** One pass through the body of [for i in range(max_length)]. *)
Definition sample_body (category_tensor : tensor2) (st : loop_state)
  : result flow :=
  input0 ← getitem (input st) 0;
  let '(output, hidden', rng') :=
    rnn (rng st) category_tensor input0 (hidden st) in
  let topi := topk1 output in
  if decide (topi = n_letters - 1) then
    Ok (Break {| input := input st; hidden := hidden';
                 output_name := output_name st; rng := rng' |})
  else
    letter ← getitem all_letters (Z.of_nat topi);
    input' ← inputTensor [letter];
    Ok (Continue {| input := input'; hidden := hidden';
                    output_name := output_name st ++ [letter];
                    rng := rng' |}).

(** The loop, with [n] passes left. *)
Fixpoint sample_loop (n : nat) (category_tensor : tensor2) (st : loop_state)
  : result loop_state :=
  match n with
  | 0 => Ok st
  | S n' =>
      r ← sample_body category_tensor st;
      match r with
      | Break st' => Ok st'
      | Continue st' => sample_loop n' category_tensor st'
      end
  end.

Definition sample (g : Rng) (category : str) (start_letter : str)
  : result (str * Rng) :=
  category_tensor ← categoryTensor all_categories category;
  input0 ← inputTensor start_letter;
  st ← sample_loop max_length category_tensor
         {| input := input0; hidden := initHidden;
            output_name := start_letter; rng := g |};
  Ok (output_name st, rng st).

(** [samples]: one [print(sample(category, start_letter))] per character of
    [start_letters]; the printed names are collected in order. *)
Definition samples (g : Rng) (category : str) (start_letters : str)
  : result (list str * Rng) :=
  for_each
    (λ '(printed, g) start_letter,
       '(name, g') ← sample g category [start_letter];
       Ok (printed ++ [name], g'))
    ([], g) start_letters.
End Sampler.

(** *** Random training examples *)

Section Random.
Variable all_categories : list str.
Variable category_lines : gmap str (list str).

(** The state of Python's [random] generator; [random_draw g a b] is what
    [random.randint(a, b)] returns for a non-empty range. *)
Variable PyRng : Type.
Variable random_draw : PyRng → Z → Z → Z * PyRng.

(** [random.randint(a, b)]: an empty range raises. *)
Definition randint (g : PyRng) (a b : Z) : result (Z * PyRng) :=
  if decide (a ≤ b)%Z then Ok (random_draw g a b) else Raise ValueError.

Definition randomChoice {A} (g : PyRng) (l : list A) : result (A * PyRng) :=
  '(i, g') ← randint g 0 (Z.of_nat (length l) - 1);
  x ← getitem l i;
  Ok (x, g').

Definition randomTrainingPair (g : PyRng) : result (str * str * PyRng) :=
  '(category, g) ← randomChoice g all_categories;
  lines ← match category_lines !! (category : str) with
          | Some lines => Ok lines
          | None => Raise KeyError
          end;
  '(line, g) ← randomChoice g lines;
  Ok (category, line, g).

Definition randomTrainingExample (g : PyRng)
  : result (tensor2 * tensor3 * list Z * PyRng) :=
  '(category, line, g) ← randomTrainingPair g;
  category_tensor ← categoryTensor all_categories category;
  input_line_tensor ← inputTensor line;
  target_line_tensor ← targetTensor line;
  Ok (category_tensor, input_line_tensor, target_line_tensor, g).
End Random.

(** *** Training *)

(** Failures of the training code besides those of the encoders. *)
Inductive train_exn : Type :=
  | Std (e : exn)
  | AttributeError (msg : string)
  | ZeroDivisionError.

Inductive outcome (A : Type) : Type :=
  | Done (a : A)
  | Failed (e : train_exn).
Arguments Done {A} a.
Arguments Failed {A} e.

#[global] Instance outcome_ret : MRet outcome := @Done.
#[global] Instance outcome_bind : MBind outcome := λ A B k r,
  match r with
  | Done a => k a
  | Failed e => Failed e
  end.

Definition lift {A} (r : result A) : outcome A :=
  match r with
  | Ok a => Done a
  | Raise e => Failed (Std e)
  end.

(** The calls [train] makes to the framework, in order. *)
Inductive net_call : Type :=
  | CallZeroGrad
  | CallForward (category input : tensor2)
  | CallCriterion (target : list Z)
  | CallBackward
  | CallUpdate.

(** The targets [nn.NLLLoss()] accepts for [n_letters] classes: a class
    index, or [ignore_index = -100]. *)
Definition nll_target_ok (t : Z) : Prop :=
  (0 ≤ t < Z.of_nat n_letters)%Z ∨ t = (-100)%Z.

#[global] Instance nll_target_ok_dec t : Decision (nll_target_ok t).
Proof. unfold nll_target_ok. apply _. Defined.

Section Train.
(** The network with its parameters and gradients, and what the framework
    does with it. *)
Variables (Net Hidden Output Loss Rng Number : Type).
Variable rnn : Net → Rng → tensor2 → tensor2 → Hidden → Output * Hidden * Rng.
Variable initHidden : Net → Hidden.
Variable zero_grad : Net → Net.
(** The value [criterion = nn.NLLLoss()] gives on targets it accepts. *)
Variable criterion : Output → list Z → Loss.
(** [loss += l] when [loss] is still the integer [0], and afterwards. *)
Variable loss_radd_zero : Loss → Loss.
Variable loss_add : Loss → Loss → Loss.
Variable backward : Loss → Net → Net.
(** [for p in rnn.parameters(): p.data.add_(-learning_rate, p.grad.data)] *)
Variable update_parameters : Net → Net.
(** [loss.item() / input_line_tensor.size(0)] *)
Variable item_div : Loss → nat → Number.

Record learner : Type := {
  net : Net;
  torch_rng : Rng;
  net_calls : list net_call
}.

(** [criterion(output, target)]: the network, [RNN(n_letters, 128,
    n_letters)], scores [n_letters] classes, and [nn.NLLLoss] raises
    [IndexError] on a target that is neither one of them nor its
    [ignore_index]. *)
Definition nll_loss (output : Output) (target : list Z) : result Loss :=
  if decide (Forall nll_target_ok target) then Ok (criterion output target)
  else Raise IndexError.

(** One pass of [for i in range(input_line_tensor.size(0))]. The running
    loss is [None] while [loss] is the integer [0] and [output] is not yet
    bound. Either subscript raises [IndexError] out of range, and so does
    the criterion on a target it does not accept. *)
Definition train_pass (category_tensor : tensor2)
    (input_line_tensor : tensor3) (target_line_tensor : list (list Z))
    (acc : learner * Hidden * option (Loss * Output)) (i : nat)
  : result (learner * Hidden * option (Loss * Output)) :=
  let '(st, hidden, running) := acc in
  input_i ← getitem input_line_tensor (Z.of_nat i);
  let '(output, hidden', rng') :=
    rnn (net st) (torch_rng st) category_tensor input_i hidden in
  target_i ← getitem target_line_tensor (Z.of_nat i);
  l ← nll_loss output target_i;
  let loss := match running with
              | None => loss_radd_zero l
              | Some (loss, _) => loss_add loss l
              end in
  Ok ({| net := net st; torch_rng := rng';
         net_calls := net_calls st ++ [CallForward category_tensor input_i;
                                       CallCriterion target_i] |},
      hidden', Some (loss, output)).

Definition train (st : learner) (category_tensor : tensor2)
    (input_line_tensor : tensor3) (target_line_tensor : list Z)
  : outcome (Output * Number * learner) :=
  (* target_line_tensor.unsqueeze_(-1) *)
  let target_line_tensor := (λ t, [t]) <$> target_line_tensor in
  let hidden := initHidden (net st) in
  let st := {| net := zero_grad (net st); torch_rng := torch_rng st;
               net_calls := net_calls st ++ [CallZeroGrad] |} in
  '(st, _, running) ←
    lift (for_each
            (train_pass category_tensor input_line_tensor target_line_tensor)
            (st, hidden, None) (seq 0 (length input_line_tensor)));
  match running with
  | None => Failed (AttributeError "'int' object has no attribute 'backward'")
  | Some (loss, output) =>
      let n := update_parameters (backward loss (net st)) in
      Done (output, item_div loss (length input_line_tensor),
            {| net := n; torch_rng := torch_rng st;
               net_calls := net_calls st ++ [CallBackward; CallUpdate] |})
  end.

(** *** The training loop *)

Variable all_categories : list str.
Variable category_lines : gmap str (list str).
Variable PyRng : Type.
Variable random_draw : PyRng → Z → Z → Z * PyRng.
(** Python numbers: the integer [0], [+] and [/]. *)
Variable number_zero : Number.
Variable number_add : Number → Number → Number.
Variable number_div : Number → nat → Number.

Record progress : Type := {
  rnn_state : learner;
  py_rng : PyRng;
  total_loss : Number;
  all_losses : list Number;
  printed : list (nat * Number)
}.

(** [a % b] on non-negative integers. *)
Definition py_mod (a b : nat) : outcome nat :=
  if decide (b = 0) then Failed ZeroDivisionError else Done (a `mod` b).

(** The body of [for iter in range(1, n_iters + 1)]; of the printed line
    only the iteration and the loss are kept. *)
Definition training_pass (print_every plot_every : nat)
    (st : progress) (iter : nat) : outcome progress :=
  '(category_tensor, input_line_tensor, target_line_tensor, g) ←
    lift (randomTrainingExample all_categories category_lines PyRng
            random_draw (py_rng st));
  '(output, loss, l) ←
    train (rnn_state st) category_tensor input_line_tensor target_line_tensor;
  let total := number_add (total_loss st) loss in
  r ← py_mod iter print_every;
  let printed := if decide (r = 0) then printed st ++ [(iter, loss)]
                 else printed st in
  r ← py_mod iter plot_every;
  if decide (r = 0) then
    Done {| rnn_state := l; py_rng := g; total_loss := number_zero;
            all_losses := all_losses st ++ [number_div total plot_every];
            printed := printed |}
  else
    Done {| rnn_state := l; py_rng := g; total_loss := total;
            all_losses := all_losses st; printed := printed |}.

Fixpoint for_range {S} (body : S → nat → outcome S) (s : S) (l : list nat)
  : outcome S :=
  match l with
  | [] => Done s
  | i :: l' => s' ← body s i; for_range body s' l'
  end.

Definition training_loop (n_iters print_every plot_every : nat)
    (st : progress) : outcome progress :=
  for_range (training_pass print_every plot_every) st (seq 1 n_iters).
End Train.

Definition n_iters : nat := N.to_nat 100000.
Definition print_every : nat := 5000.
Definition plot_every : nat := 500.

End NameGen.

Close Scope string_scope.

(** * Specification vocabulary *)

Section FirstOccurrence.
Context `{Countable K}.

(** Position [k] holds the first occurrence of [t] in [toks]. *)
Definition first_at (toks : list K) (k : nat) (t : K) : Prop :=
  toks !! k = Some t ∧ t ∉ take k toks.

(** Number of distinct tokens strictly before position [k]. *)
Definition distinct_before (toks : list K) (k : nat) : nat :=
  size (list_to_set (take k toks) : gset K).

Definition n_distinct (toks : list K) : nat :=
  size (list_to_set toks : gset K).

(** What the dictionary looks like after the tokens [toks] went through
    the builder's loop body. *)
Record indexes (toks : list K) (m : gmap K nat) : Prop := {
  ix_dom : ∀ t, is_Some (m !! t) ↔ t ∈ toks;
  ix_size : size m = n_distinct toks;
  ix_first : ∀ t i,
    m !! t = Some i ↔ ∃ k, first_at toks k t ∧ i = distinct_before toks k;
  ix_onto : ∀ i, i < size m → ∃ t, m !! t = Some i
}.
End FirstOccurrence.

Section Decoding.
Context `{Countable K}.

(** [ix_to] sends every index handed out by [to_ix] back to its token. *)
Definition inverse_of (to_ix : gmap K nat) (ix_to : gmap nat K) : Prop :=
  map_Forall (λ w i, ix_to !! i = Some w) to_ix.

(** The inverse dictionary [{i: w for w, i in to_ix.items()}]. *)
Definition invert (to_ix : gmap K nat) : gmap nat K :=
  list_to_map (prod_swap <$> map_to_list to_ix).

End Decoding.

(** A row of length [n] whose only one is at position [k]. *)
Definition one_hot (n k : nat) (r : NameGen.row) : Prop :=
  length r = n ∧ k < n ∧
  ∀ j, j < n → r !! j = Some (if decide (j = k) then 1%Z else 0%Z).



(** The calls one epoch of the tagger's training makes, in order. *)
Definition epoch_calls : list Tagger.call :=
  [ Tagger.ZeroGrad; Tagger.InitHidden; Tagger.Forward [0; 1; 2; 3; 4];
    Tagger.NLLLoss [0; 1; 2; 0; 1]; Tagger.Backward; Tagger.OptimizerStep;
    Tagger.ZeroGrad; Tagger.InitHidden; Tagger.Forward [5; 6; 7; 8];
    Tagger.NLLLoss [1; 2; 0; 1]; Tagger.Backward; Tagger.OptimizerStep ].

Definition count_calls (c : Tagger.call) (l : list Tagger.call) : nat :=
  length (filter (λ x, x = c) l).

Definition is_loss (c : Tagger.call) : bool :=
  match c with Tagger.NLLLoss _ => true | _ => false end.

(** The session recorded in the notebook's output still had a class of the
    old name around, unrelated to the class being constructed. *)
Definition recorded_session : gmap string Tagger.pyobj :=
  <["LSTMTaggerWithChar"%string :=
      Tagger.PyClass ["LSTMTaggerWithChar"; "Module"; "object"]%string]>
    Tagger.notebook_globals.

(** The position [inputTensor] sets for a character: where [all_letters]
    has it, or the last position when it has not. *)
Definition slot (c : NameGen.char) : nat :=
  match list_find (λ x, x = c) NameGen.all_letters with
  | Some (i, _) => i
  | None => NameGen.n_letters - 1
  end.

(** The timestep [inputTensor] builds for a character. *)
Definition hot (c : NameGen.char) : NameGen.tensor2 :=
  [ <[slot c := 1%Z]> (replicate NameGen.n_letters 0%Z) ].

(** A character the sampling loop may append: one of [all_letters], found
    below the EOS index. *)
Definition letter_below_EOS (c : NameGen.char) : Prop :=
  ∃ t, t < NameGen.n_letters - 1 ∧ NameGen.all_letters !! t = Some c.

(** A network for trying the sampler out: its generator state counts the
    calls, and the best-scoring letter of call [g] is the [g]-th entry of
    [script] (the EOS index once the script is over). *)
Definition scripted_rnn (g : nat) (category input : NameGen.tensor2)
    (h : unit) : nat * unit * nat :=
  (g, h, S g).

Definition scripted_topk1 (script : list nat) (call : nat) : nat :=
  default (NameGen.n_letters - 1) (script !! call).

(** The category a file stands for. *)
Definition category_of (basename : NameGen.str → NameGen.str)
    (splitext : NameGen.str → NameGen.str * NameGen.str)
    (file : NameGen.str * NameGen.str) : NameGen.str :=
  (splitext (basename file.1)).1.

(** The file that decides the lines of category [c]: the last one of that
    category, at position [i] with content [content]. *)
Definition decides (basename : NameGen.str → NameGen.str)
    (splitext : NameGen.str → NameGen.str * NameGen.str)
    (files : list (NameGen.str * NameGen.str)) (c : NameGen.str) (i : nat)
    (content : NameGen.str) : Prop :=
  (∃ filename, files !! i = Some (filename, content)
               ∧ category_of basename splitext (filename, content) = c)
  ∧ ∀ j file, i < j → files !! j = Some file →
              category_of basename splitext file ≠ c.

(** What [random.randint] promises: a value within the bounds. *)
Definition within_bounds {G} (random_draw : G → Z → Z → Z * G) : Prop :=
  ∀ g a b, (a ≤ b)%Z → (a ≤ (random_draw g a b).1 ≤ b)%Z.

(** A generator for trying the random helpers out: a counter, clamped into
    the range asked for. *)
Definition counter_draw (g a b : Z) : Z * Z :=
  (Z.max a (Z.min b g), (g + 1)%Z).

(** Data on which a training step can run: some category, every category
    with a non-empty list of lines, every line non-empty and written with
    the letters of [all_letters]. *)
Definition trainable (all_categories : list NameGen.str)
    (category_lines : gmap NameGen.str (list NameGen.str)) : Prop :=
  all_categories ≠ []
  ∧ ∀ c, c ∈ all_categories →
      ∃ lines, category_lines !! c = Some lines ∧ lines ≠ []
               ∧ Forall (λ line, line ≠ []
                                 ∧ Forall (λ x, x ∈ NameGen.all_letters) line)
                   lines.

(** The framework calls of the passes of [train] over the timesteps
    [inputs] with the targets [targets]. *)
Definition pass_calls (category_tensor : NameGen.tensor2)
    (inputs : NameGen.tensor3) (targets : list Z) : list NameGen.net_call :=
  mjoin (zip_with
           (λ x t, [NameGen.CallForward category_tensor x;
                    NameGen.CallCriterion [t]])
           inputs targets).

(** What the passes of [train] compute, in terms of the framework's
    operations: the network is run on each timestep with the hidden state
    and the generator state the timestep before left, and the criterion's
    value on its output and the timestep's target is added to the loss. *)
Section TrainResults.
Variables (Net Hidden Output Loss Rng : Type).
Variable rnn :
  Net → Rng → NameGen.tensor2 → NameGen.tensor2 → Hidden
  → Output * Hidden * Rng.
Variable criterion : Output → list Z → Loss.
Variable loss_radd_zero : Loss → Loss.
Variable loss_add : Loss → Loss → Loss.

Definition pass_result (n : Net) (category_tensor : NameGen.tensor2)
    (acc : Rng * Hidden * option (Loss * Output))
    (step : NameGen.tensor2 * Z) : Rng * Hidden * option (Loss * Output) :=
  let '(g, hidden, running) := acc in
  let '(output, hidden', g') := rnn n g category_tensor step.1 hidden in
  let l := criterion output [step.2] in
  (g', hidden',
   Some (match running with
         | None => loss_radd_zero l
         | Some (loss, _) => loss_add loss l
         end, output)).

Definition pass_results (n : Net) (category_tensor : NameGen.tensor2)
    (g : Rng) (hidden : Hidden)
    (inputs : NameGen.tensor3) (targets : list Z)
  : Rng * Hidden * option (Loss * Output) :=
  foldl (pass_result n category_tensor) (g, hidden, None)
    (zip inputs targets).
End TrainResults.

(** One iteration of the training loop without its bookkeeping: a random
    training example is drawn and [train] runs on it; and the losses of
    the first [n] iterations, in order, with the network and the generator
    they leave. *)
Section Iterations.
Variables (Net Hidden Output Loss Rng Number : Type).
Variable rnn :
  Net → Rng → NameGen.tensor2 → NameGen.tensor2 → Hidden
  → Output * Hidden * Rng.
Variable initHidden : Net → Hidden.
Variable zero_grad : Net → Net.
Variable criterion : Output → list Z → Loss.
Variable loss_radd_zero : Loss → Loss.
Variable loss_add : Loss → Loss → Loss.
Variable backward : Loss → Net → Net.
Variable update_parameters : Net → Net.
Variable item_div : Loss → nat → Number.
Variable all_categories : list NameGen.str.
Variable category_lines : gmap NameGen.str (list NameGen.str).
Variable PyRng : Type.
Variable random_draw : PyRng → Z → Z → Z * PyRng.

Definition iteration (s : NameGen.learner Net Rng * PyRng)
  : NameGen.outcome (Number * (NameGen.learner Net Rng * PyRng)) :=
  '(category_tensor, input_line_tensor, target_line_tensor, g) ←
    NameGen.lift
      (NameGen.randomTrainingExample all_categories category_lines PyRng
         random_draw s.2);
  '(_, loss, l) ←
    NameGen.train Net Hidden Output Loss Rng Number rnn initHidden zero_grad
      criterion loss_radd_zero loss_add backward update_parameters item_div
      s.1 category_tensor input_line_tensor target_line_tensor;
  NameGen.Done (loss, (l, g)).

Fixpoint iterations (n : nat) (s : NameGen.learner Net Rng * PyRng)
  : NameGen.outcome (list Number * (NameGen.learner Net Rng * PyRng)) :=
  match n with
  | 0 => NameGen.Done ([], s)
  | S n' =>
      '(losses, s1) ← iterations n' s;
      '(loss, s2) ← iteration s1;
      NameGen.Done (losses ++ [loss], s2)
  end.
End Iterations.

(** The average the training loop records for block [k] of [q] losses. *)
Definition block_average {Number} (number_zero : Number)
    (number_add : Number → Number → Number)
    (number_div : Number → nat → Number)
    (q : nat) (losses : list Number) (k : nat) : Number :=
  number_div (foldl number_add number_zero (take q (drop (k * q) losses))) q.

(** What one sentence and one epoch of the tagger's training make of the
    model, in terms of the framework's operations. *)
Section TaggerUpdates.
Variables (Model Scores Loss : Type).
Variable zero_grad reset_hidden : Model → Model.
Variable forward : Model → list nat → Scores * Model.
Variable loss_function : Scores → list nat → Loss.
Variable backward : Loss → Model → Model.
Variable optimizer_step : Model → Model.

(** Gradients cleared and hidden state reset, the forward pass gives the
    tag scores; their loss against the targets is back-propagated and the
    optimiser takes one step. *)
Definition sentence_update (m : Model) (sentence_in targets : list nat)
  : Model :=
  let '(tag_scores, m1) := forward (reset_hidden (zero_grad m)) sentence_in in
  optimizer_step (backward (loss_function tag_scores targets) m1).

(** The two training sentences, as indices, in order. *)
Definition epoch_update (m : Model) : Model :=
  sentence_update
    (sentence_update m [0; 1; 2; 3; 4] [0; 1; 2; 0; 1])
    [5; 6; 7; 8] [1; 2; 0; 1].
End TaggerUpdates.

(** * Properties of the sequence-model notebook *)

(** Closed decidable facts are settled by evaluation. *)
Ltac by_computation := apply (bool_decide_unpack _); vm_compute; exact I.

Section ResultFacts.
Context {S A : Type}.

Lemma for_each_snoc (body : S → A → result S) s l x :
  for_each body s (l ++ [x]) = (s' ← for_each body s l; body s' x).
Proof.
  revert s. induction l as [|y l IH]; intros s; simpl.
  - by destruct (body s x).
  - destruct (body s y) as [s1|e]; simpl; [apply IH | done].
Qed.

End ResultFacts.

Section BuilderFacts.
Context `{Countable K}.
Implicit Types (toks : list K) (m : gmap K nat).

Lemma foldl_concat {A B} (f : A → B → A) a (ll : list (list B)) :
  foldl (λ a l, foldl f a l) a ll = foldl f a (concat ll).
Proof.
  revert a. induction ll as [|l ll IH]; intros a; simpl; [done|].
  by rewrite IH, foldl_app.
Qed.

Lemma first_at_snoc toks x k t :
  first_at (toks ++ [x]) k t ↔
  first_at toks k t ∨ (k = length toks ∧ t = x ∧ x ∉ toks).
Proof.
  unfold first_at. split.
  - intros [Hk Hn]. destruct (decide (k < length toks)) as [Hlt|Hge].
    + left. rewrite lookup_app_l in Hk by done.
      rewrite take_app_le in Hn by lia. done.
    + right. apply lookup_lt_Some in Hk as Hlen.
      rewrite length_app in Hlen; simpl in Hlen.
      assert (k = length toks) as -> by lia.
      rewrite list_lookup_middle in Hk by done. injection Hk as <-.
      rewrite take_app_le, take_ge in Hn by lia. done.
  - intros [[Hk Hn]|(-> & -> & Hn)].
    + apply lookup_lt_Some in Hk as Hlt.
      rewrite lookup_app_l by done. rewrite take_app_le by lia. done.
    + rewrite list_lookup_middle by done.
      rewrite take_app_le, take_ge by lia. done.
Qed.

Lemma distinct_before_snoc toks x k :
  k ≤ length toks → distinct_before (toks ++ [x]) k = distinct_before toks k.
Proof. intros Hk. unfold distinct_before. by rewrite take_app_le. Qed.

Lemma distinct_before_all toks :
  distinct_before toks (length toks) = n_distinct toks.
Proof. unfold distinct_before, n_distinct. by rewrite take_ge. Qed.

Lemma first_at_lt toks k t : first_at toks k t → k < length toks.
Proof. intros [Hk _]. by apply lookup_lt_Some in Hk. Qed.

Lemma first_at_unique toks k k' t :
  first_at toks k t → first_at toks k' t → k = k'.
Proof.
  intros [Hk Hn] [Hk' Hn'].
  destruct (Nat.lt_total k k') as [Hl|[->|Hl]]; [|done|].
  - destruct Hn'. apply elem_of_take. eauto.
  - destruct Hn. apply elem_of_take. eauto.
Qed.

(** A later first occurrence has strictly more distinct tokens before it. *)
Lemma distinct_before_lt toks k1 k2 t :
  first_at toks k1 t → k1 < k2 →
  distinct_before toks k1 < distinct_before toks k2.
Proof.
  intros [Hk Hn] Hlt. unfold distinct_before. apply subset_size.
  apply (strict_spec_alt (R:=(⊆))). split.
  - intros y. rewrite !elem_of_list_to_set.
    intros Hy. apply elem_of_take in Hy as (i & Hi & Hlti).
    apply elem_of_take. exists i. split; [done | lia].
  - intros Heq. apply Hn.
    apply (elem_of_list_to_set (C:=gset K)). rewrite Heq.
    apply elem_of_list_to_set, elem_of_take. eauto.
Qed.

Lemma n_distinct_snoc_old toks x :
  x ∈ toks → n_distinct (toks ++ [x]) = n_distinct toks.
Proof.
  intros Hx. unfold n_distinct. f_equal.
  rewrite list_to_set_app_L. cbn [list_to_set].
  rewrite union_empty_r_L, (comm_L (∪)).
  apply subseteq_union_1_L, singleton_subseteq_l. by apply elem_of_list_to_set.
Qed.

Lemma n_distinct_snoc_new toks x :
  x ∉ toks → n_distinct (toks ++ [x]) = S (n_distinct toks).
Proof.
  intros Hx. unfold n_distinct.
  rewrite list_to_set_app_L. cbn [list_to_set]. rewrite union_empty_r_L.
  rewrite size_union, size_singleton; [lia|].
  apply disjoint_singleton_r. by rewrite elem_of_list_to_set.
Qed.
End BuilderFacts.

Section BuilderInvariant.
Context `{Countable K}.
Implicit Types (toks : list K) (m : gmap K nat).

Lemma indexes_empty : indexes (K:=K) [] ∅.
Proof.
  split.
  - intros t. rewrite lookup_empty, elem_of_nil. split; [by intros [] | done].
  - by rewrite map_size_empty.
  - intros t i. rewrite lookup_empty. split; [done|].
    by intros (k & [Hk _] & _).
  - rewrite map_size_empty. lia.
Qed.

Lemma indexes_add toks m x :
  indexes toks m → indexes (toks ++ [x]) (Tagger.add_token m x).
Proof.
  intros [Hdom Hsize Hfirst Honto]. unfold Tagger.add_token.
  destruct (m !! x) as [j|] eqn:Hx.
  - assert (x ∈ toks) as Hin by (apply Hdom; eauto).
    split.
    + intros t. rewrite Hdom, elem_of_app, list_elem_of_singleton.
      split; [by left | by intros [?| ->]].
    + by rewrite n_distinct_snoc_old.
    + intros t i. rewrite Hfirst. split.
      * intros (k & Hk & ->). exists k. split.
        -- apply first_at_snoc. by left.
        -- apply first_at_lt in Hk. rewrite distinct_before_snoc; [done | lia].
      * intros (k & Hk & ->). apply first_at_snoc in Hk as [Hk|(_ & _ & ?)];
          [|done].
        exists k. split; [done|].
        apply first_at_lt in Hk. rewrite distinct_before_snoc; [done | lia].
    + done.
  - assert (x ∉ toks) as Hnin.
    { intros Hin. apply Hdom in Hin as [? ?]. congruence. }
    split.
    + intros t. rewrite elem_of_app, list_elem_of_singleton, <- Hdom.
      destruct (decide (x = t)) as [->|Hne].
      * rewrite lookup_insert_eq. split; eauto.
      * rewrite lookup_insert_ne by done.
        split; [by left | by intros [?|?]].
    + rewrite map_size_insert_None by done.
      by rewrite n_distinct_snoc_new, Hsize.
    + intros t i. destruct (decide (x = t)) as [<-|Hne].
      * rewrite lookup_insert_eq. split.
        -- intros [= <-]. exists (length toks). split.
           ++ apply first_at_snoc. by right.
           ++ rewrite distinct_before_snoc by done.
              by rewrite distinct_before_all.
        -- intros (k & Hk & ->).
           apply first_at_snoc in Hk as [[Hk _]|(-> & _ & _)].
           ++ destruct Hnin. by eapply list_elem_of_lookup_2.
           ++ rewrite distinct_before_snoc by done.
              by rewrite distinct_before_all, Hsize.
      * rewrite lookup_insert_ne by done. rewrite Hfirst. split.
        -- intros (k & Hk & ->). exists k. split.
           ++ apply first_at_snoc. by left.
           ++ apply first_at_lt in Hk.
              rewrite distinct_before_snoc; [done | lia].
        -- intros (k & Hk & ->).
           apply first_at_snoc in Hk as [Hk|(_ & ? & _)]; [|done].
           exists k. split; [done|]. apply first_at_lt in Hk.
           rewrite distinct_before_snoc; [done | lia].
    + intros i. rewrite map_size_insert_None by done. intros Hi.
      destruct (decide (i = size m)) as [->|Hne].
      * exists x. by rewrite lookup_insert_eq.
      * destruct (Honto i) as [t Ht]; [lia|]. exists t.
        rewrite lookup_insert_ne; [done | congruence].
Qed.

Lemma indexes_foldl (toks : list K) : indexes toks (foldl Tagger.add_token ∅ toks).
Proof.
  induction toks as [|x toks IH] using rev_ind.
  - apply indexes_empty.
  - rewrite foldl_app. simpl. by apply indexes_add.
Qed.

Lemma indexes_build (corpus : list (list K)) :
  indexes (concat corpus) (Tagger.build_index corpus).
Proof.
  unfold Tagger.build_index. rewrite foldl_concat. apply indexes_foldl.
Qed.

Lemma indexes_lt toks m t i : indexes toks m → m !! t = Some i → i < size m.
Proof.
  intros Hix Ht. rewrite (ix_size _ _ Hix).
  apply (ix_first _ _ Hix) in Ht as (k & Hk & ->).
  rewrite <- distinct_before_all.
  eapply distinct_before_lt; [done|]. by eapply first_at_lt.
Qed.

Lemma indexes_inj toks m t1 t2 i :
  indexes toks m → m !! t1 = Some i → m !! t2 = Some i → t1 = t2.
Proof.
  intros Hix H1 H2.
  apply (ix_first _ _ Hix) in H1 as (k1 & Hk1 & ->).
  apply (ix_first _ _ Hix) in H2 as (k2 & Hk2 & Heq).
  destruct (Nat.lt_total k1 k2) as [Hlt|[->|Hlt]].
  - pose proof (distinct_before_lt _ _ _ _ Hk1 Hlt). lia.
  - destruct Hk1 as [Hk1 _], Hk2 as [Hk2 _]. congruence.
  - pose proof (distinct_before_lt _ _ _ _ Hk2 Hlt). lia.
Qed.
End BuilderInvariant.

(** C2. For every corpus, the incremental builder gives every token of the
    corpus exactly one index; the index of a token is the number of distinct
    tokens met before its first occurrence (first-occurrence order), so
    tokens that first occur earlier get smaller indices, distinct tokens get
    distinct indices, and the indices in use are exactly [0 .. n-1] for [n]
    distinct tokens. *)
Theorem build_index_first_occurrence `{Countable K} (corpus : list (list K)) :
  let toks := concat corpus in
  let to_ix := Tagger.build_index corpus in
  (∀ t, t ∈ toks ↔ ∃ i, to_ix !! t = Some i ∧ ∀ j, to_ix !! t = Some j → j = i)
  ∧ (∀ t i, to_ix !! t = Some i ↔
            ∃ k, first_at toks k t ∧ i = distinct_before toks k)
  ∧ (∀ t1 t2 k1 k2 i1 i2,
       first_at toks k1 t1 → first_at toks k2 t2 →
       to_ix !! t1 = Some i1 → to_ix !! t2 = Some i2 →
       (k1 < k2 ↔ i1 < i2))
  ∧ (∀ t1 t2 i, to_ix !! t1 = Some i → to_ix !! t2 = Some i → t1 = t2)
  ∧ (∀ i, i < n_distinct toks ↔ ∃ t, to_ix !! t = Some i)
  ∧ size to_ix = n_distinct toks.
Proof.
  intros toks to_ix. pose proof (indexes_build corpus) as Hix.
  fold toks to_ix in Hix. split_and!.
  - intros t. split.
    + intros Ht. apply (ix_dom _ _ Hix) in Ht as [i Hi].
      exists i. split; [done | congruence].
    + intros (i & Hi & _). apply (ix_dom _ _ Hix). eauto.
  - apply (ix_first _ _ Hix).
  - intros t1 t2 k1 k2 i1 i2 Hk1 Hk2 H1 H2.
    apply (ix_first _ _ Hix) in H1 as (k1' & Hk1' & ->).
    apply (ix_first _ _ Hix) in H2 as (k2' & Hk2' & ->).
    rewrite (first_at_unique _ _ _ _ Hk1' Hk1).
    rewrite (first_at_unique _ _ _ _ Hk2' Hk2). split.
    + intros Hl. exact (distinct_before_lt _ _ _ _ Hk1 Hl).
    + intros Hlt. destruct (Nat.lt_total k1 k2) as [Hl|[->|Hl]]; [done|lia|].
      pose proof (distinct_before_lt _ _ _ _ Hk2 Hl). lia.
  - intros t1 t2 i. by apply indexes_inj with toks.
  - intros i. split.
    + intros Hi. apply (ix_onto _ _ Hix). by rewrite (ix_size _ _ Hix).
    + intros [t Ht]. rewrite <- (ix_size _ _ Hix). by eapply indexes_lt.
  - apply (ix_size _ _ Hix).
Qed.

(** The dictionaries of the notebook are instances of the builder. *)
Lemma foldl_fst {A B C} (f : A → B → A) (a : A) (l : list (B * C)) :
  foldl (λ a '(b, _), f a b) a l = foldl f a (fst <$> l).
Proof.
  revert a. induction l as [|[b c] l IH]; intros a; simpl; [done | apply IH].
Qed.

Lemma word_to_ix_build :
  Tagger.word_to_ix = Tagger.build_index (fst <$> Tagger.training_data).
Proof.
  unfold Tagger.word_to_ix, Tagger.build_index.
  apply (foldl_fst (λ to_ix sent, foldl Tagger.add_token to_ix sent)).
Qed.

Lemma char_to_ix_build :
  Tagger.char_to_ix =
  Tagger.build_index
    ((λ sent, mjoin (list_ascii_of_string <$> sent))
       <$> (fst <$> Tagger.training_data)).
Proof.
  unfold Tagger.char_to_ix, Tagger.build_index.
  rewrite (foldl_fst
    (λ to_ix sent,
       foldl (λ to_ix w, foldl Tagger.add_token to_ix (list_ascii_of_string w))
             to_ix sent)).
  generalize (fst <$> Tagger.training_data).
  generalize (∅ : gmap ascii nat).
  intros m l. revert m. induction l as [|sent l IH]; intros m; [done|].
  cbn [foldl fmap list_fmap]. rewrite IH. f_equal.
  clear. revert m. induction sent as [|w sent IH]; intros m; [done|].
  cbn [foldl fmap list_fmap mjoin list_join]. rewrite foldl_app. apply IH.
Qed.

(** The dictionary the notebook prints. *)
Example word_to_ix_printed :
  (λ w, Tagger.word_to_ix !! w) <$>
    [ "The"; "dog"; "ate"; "the"; "apple"; "Everybody"; "read"; "that";
      "book" ]%string
  = Some <$> [0; 1; 2; 3; 4; 5; 6; 7; 8]
  ∧ size Tagger.word_to_ix = 9.
Proof. vm_compute. done. Qed.

(** ** The training loop *)

Lemma training_data_eq :
  Tagger.training_data =
  [ (["The"; "dog"; "ate"; "the"; "apple"], ["DET"; "NN"; "V"; "DET"; "NN"]);
    (["Everybody"; "read"; "that"; "book"], ["NN"; "V"; "DET"; "NN"]) ]%string.
Proof. vm_compute. reflexivity. Qed.

Lemma prepare_sentence_1 :
  Tagger.prepare_sequence ["The"; "dog"; "ate"; "the"; "apple"]%string
    Tagger.word_to_ix = Ok [0; 1; 2; 3; 4].
Proof. vm_compute. reflexivity. Qed.

Lemma prepare_tags_1 :
  Tagger.prepare_sequence ["DET"; "NN"; "V"; "DET"; "NN"]%string
    Tagger.tag_to_ix = Ok [0; 1; 2; 0; 1].
Proof. vm_compute. reflexivity. Qed.

Lemma prepare_sentence_2 :
  Tagger.prepare_sequence ["Everybody"; "read"; "that"; "book"]%string
    Tagger.word_to_ix = Ok [5; 6; 7; 8].
Proof. vm_compute. reflexivity. Qed.

Lemma prepare_tags_2 :
  Tagger.prepare_sequence ["NN"; "V"; "DET"; "NN"]%string
    Tagger.tag_to_ix = Ok [1; 2; 0; 1].
Proof. vm_compute. reflexivity. Qed.

Section TrainingFacts.
Variables (Model Scores Loss : Type).
Variable zero_grad reset_hidden : Model → Model.
Variable forward : Model → list nat → Scores * Model.
Variable loss_function : Scores → list nat → Loss.
Variable backward : Loss → Model → Model.
Variable optimizer_step : Model → Model.

Abbreviation train_epoch :=
  (Tagger.train_epoch Model Scores Loss zero_grad reset_hidden forward
     loss_function backward optimizer_step).
Abbreviation train :=
  (Tagger.train Model Scores Loss zero_grad reset_hidden forward
     loss_function backward optimizer_step).

Abbreviation epoch_update' :=
  (epoch_update Model Scores Loss zero_grad reset_hidden forward
     loss_function backward optimizer_step).

Lemma train_epoch_calls st epoch :
  ∃ st', train_epoch st epoch = Ok st' ∧
         Tagger.calls Model st' = Tagger.calls Model st ++ epoch_calls ∧
         Tagger.model Model st' = epoch_update' (Tagger.model Model st).
Proof.
  unfold Tagger.train_epoch. rewrite training_data_eq.
  cbn [for_each Tagger.train_sentence].
  rewrite prepare_sentence_1, prepare_tags_1. cbn [mbind result_bind].
  unfold epoch_update, sentence_update.
  destruct (forward _ _) as [scores1 m1]. cbn [mbind result_bind Tagger.model].
  rewrite prepare_sentence_2, prepare_tags_2. cbn [mbind result_bind].
  destruct (forward _ _) as [scores2 m2].
  eexists. split_and!; [done | | done].
  cbn [Tagger.calls]. by rewrite <- app_assoc.
Qed.

Lemma train_epochs_calls st epochs :
  ∃ st', for_each train_epoch st epochs = Ok st' ∧
         Tagger.calls Model st' =
         Tagger.calls Model st ++ mjoin (replicate (length epochs) epoch_calls)
         ∧ Tagger.model Model st'
           = Nat.iter (length epochs) epoch_update' (Tagger.model Model st).
Proof.
  revert st. induction epochs as [|e epochs IH]; intros st.
  - exists st. simpl. by rewrite app_nil_r.
  - cbn [for_each]. destruct (train_epoch_calls st e) as (st1 & -> & H1 & Hm1).
    destruct (IH st1) as (st2 & H2 & Hc & Hm2). exists st2.
    split_and!; [done | |].
    + rewrite Hc, H1. cbn [length replicate mjoin list_join].
      by rewrite <- app_assoc.
    + rewrite Hm2, Hm1. cbn [length]. by rewrite Nat.iter_succ_r.
Qed.
End TrainingFacts.

(** C8. The tagger's training loop succeeds and makes exactly the calls of
    300 epochs, each epoch visiting the two hard-coded sentences in order
    and, for each sentence, computing one negative-log-likelihood loss and
    taking one optimiser step: 600 losses and 600 parameter updates. The
    model it ends with is the initial one taken through 300 epochs, each of
    which updates it once per sentence with the optimiser's step on the
    gradients of that sentence's loss. *)
Theorem train_300_epochs_of_2_sentences
    (Model Scores Loss : Type) (zero_grad reset_hidden : Model → Model)
    (forward : Model → list nat → Scores * Model)
    (loss_function : Scores → list nat → Loss)
    (backward : Loss → Model → Model) (optimizer_step : Model → Model)
    (m : Model) :
  length Tagger.training_data = 2 ∧
  length (filter is_loss epoch_calls) = 2 ∧
  count_calls Tagger.OptimizerStep epoch_calls = 2 ∧
  ∃ st, Tagger.train Model Scores Loss zero_grad reset_hidden forward
          loss_function backward optimizer_step
          {| Tagger.model := m; Tagger.calls := [] |} = Ok st
        ∧ Tagger.calls Model st = mjoin (replicate 300 epoch_calls)
        ∧ length (filter is_loss (Tagger.calls Model st)) = 600
        ∧ count_calls Tagger.OptimizerStep (Tagger.calls Model st) = 600
        ∧ Tagger.model Model st
          = Nat.iter 300
              (epoch_update Model Scores Loss zero_grad reset_hidden forward
                 loss_function backward optimizer_step)
              m.
Proof.
  split; [by rewrite training_data_eq|].
  split; [done|]. split; [done|].
  destruct (train_epochs_calls Model Scores Loss zero_grad reset_hidden forward
              loss_function backward optimizer_step
              {| Tagger.model := m; Tagger.calls := [] |} (seq 0 300))
    as (st & Hst & Hcalls & Hmodel).
  exists st. split; [exact Hst|].
  rewrite length_seq in Hcalls, Hmodel. cbn [Tagger.calls app] in Hcalls.
  cbn [Tagger.model] in Hmodel.
  rewrite Hcalls. split_and!; [done | | | exact Hmodel]; vm_compute; reflexivity.
Qed.

(** ** The character-augmented tagger *)

Lemma super_notebook_globals :
  Tagger.super Tagger.notebook_globals "LSTMTaggerWithChar" "LSTMCharTagger"
  = Raise (NameError "LSTMTaggerWithChar").
Proof. vm_compute. reflexivity. Qed.

Lemma super_recorded_session :
  Tagger.super recorded_session "LSTMTaggerWithChar" "LSTMCharTagger"
  = Raise (TypeError
      "super(type, obj): obj must be an instance or subtype of type").
Proof. vm_compute. reflexivity. Qed.

(** C6. Whatever the arguments, and whatever the rest of the constructor
    and the forward pass would do, constructing the character-augmented
    tagger raises at its [super] call: a [NameError] in the notebook as
    written, the recorded [TypeError] when a class of the old name is still
    bound; the cell that builds and scores the model never gets to the
    scoring. *)
Theorem LSTMCharTagger_init_raises
    (T R : Type) (init_layers : Tagger.tagger_args → result T)
    (score : T → result R) (a : Tagger.tagger_args) :
  Tagger.LSTMCharTagger_init T init_layers Tagger.notebook_globals a
    = Raise (NameError "LSTMTaggerWithChar")
  ∧ Tagger.LSTMCharTagger_init T init_layers recorded_session a
    = Raise (TypeError
        "super(type, obj): obj must be an instance or subtype of type")
  ∧ Tagger.build_and_score T init_layers Tagger.notebook_globals a score
    = Raise (NameError "LSTMTaggerWithChar")
  ∧ Tagger.build_and_score T init_layers recorded_session a score
    = Raise (TypeError
        "super(type, obj): obj must be an instance or subtype of type").
Proof.
  unfold Tagger.build_and_score, Tagger.LSTMCharTagger_init.
  rewrite super_notebook_globals, super_recorded_session. done.
Qed.

(** ** Decoding what [prepare_sequence] encoded *)

Section DecodingFacts.
Context `{Countable K}.


(** An injective dictionary has an inverse, the one [invert] builds. *)
Lemma invert_inverse (to_ix : gmap K nat) :
  (∀ w1 w2 i, to_ix !! w1 = Some i → to_ix !! w2 = Some i → w1 = w2) →
  inverse_of to_ix (invert to_ix).
Proof.
  intros Hinj w i Hw. unfold invert.
  apply elem_of_list_to_map_1'.
  - intros w' Hin. apply list_elem_of_fmap in Hin as ([w2 i2] & [= -> ->] & Hin).
    apply elem_of_map_to_list in Hin. by eapply Hinj.
  - apply list_elem_of_fmap. exists (w, i). split; [done|].
    by apply elem_of_map_to_list.
Qed.

Lemma build_index_inverse (corpus : list (list K)) :
  inverse_of (Tagger.build_index corpus) (invert (Tagger.build_index corpus)).
Proof.
  apply invert_inverse. intros w1 w2 i.
  apply indexes_inj with (concat corpus), indexes_build.
Qed.
End DecodingFacts.

(** * Properties of the name-generation notebook *)

Import NameGen.

(** ** Subscripts *)

Lemma py_index_nat n k : k < n → py_index n (Z.of_nat k) = Ok k.
Proof.
  intros Hk. unfold py_index. rewrite decide_True by lia.
  by rewrite Nat2Z.id.
Qed.

Lemma py_index_last n : 0 < n → py_index n (-1) = Ok (n - 1).
Proof.
  intros Hn. unfold py_index. rewrite decide_False by lia.
  rewrite decide_True by lia. f_equal. lia.
Qed.

Lemma getitem_nat {A} (l : list A) k x :
  l !! k = Some x → getitem l (Z.of_nat k) = Ok x.
Proof.
  intros Hk. unfold getitem. rewrite py_index_nat by by eapply lookup_lt_Some.
  cbn. by rewrite Hk.
Qed.

Lemma getitem_nat_Ok {A} (l : list A) k x :
  getitem l (Z.of_nat k) = Ok x → l !! k = Some x.
Proof.
  unfold getitem, py_index. case_decide as Hk.
  - rewrite Nat2Z.id. cbn. by destruct (l !! k); intros [= ->].
  - by rewrite decide_False by lia.
Qed.

Lemma getitem_first {A} (x : A) l : getitem (x :: l) 0 = Ok x.
Proof. apply (getitem_nat (x :: l) 0 x). done. Qed.

Lemma update_at_Ok {A} (l : list A) i k x y (f : A → result A) :
  py_index (length l) i = Ok k → l !! k = Some x → f x = Ok y →
  update_at l i f = Ok (<[k := y]> l).
Proof.
  intros Hi Hk Hf. unfold update_at. rewrite Hi. cbn. rewrite Hk, Hf. done.
Qed.

(** ** [find] and [index] *)

Lemma find_elem s c :
  c ∈ s → ∃ k, find s c = Z.of_nat k ∧ s !! k = Some c
               ∧ ∀ j, j < k → s !! j ≠ Some c.
Proof.
  intros Hc. unfold find.
  destruct (list_find (λ x, x = c) s) as [[k x]|] eqn:Hf.
  - apply list_find_Some in Hf as (Hk & -> & Hmin). exists k.
    split_and!; [done..|]. intros j Hj Hjc. by eapply Hmin.
  - apply list_find_None in Hf. rewrite Forall_forall in Hf.
    by destruct (Hf c Hc).
Qed.

Lemma find_not_elem s c : c ∉ s → find s c = (-1)%Z.
Proof.
  intros Hc. unfold find.
  destruct (list_find (λ x, x = c) s) as [[k x]|] eqn:Hf; [|done].
  apply list_find_Some in Hf as (Hk & -> & _).
  destruct Hc. by eapply list_elem_of_lookup_2.
Qed.

Lemma index_elem {A} `{EqDecision A} (l : list A) (x : A) :
  x ∈ l → ∃ k, index l x = Ok k ∧ l !! k = Some x
               ∧ ∀ j, j < k → l !! j ≠ Some x.
Proof.
  intros Hx. unfold index.
  destruct (list_find (λ y, y = x) l) as [[k y]|] eqn:Hf.
  - apply list_find_Some in Hf as (Hk & -> & Hmin). exists k.
    split_and!; [done..|]. intros j Hj Hjx. by eapply Hmin.
  - apply list_find_None in Hf. rewrite Forall_forall in Hf.
    by destruct (Hf x Hx).
Qed.

Lemma all_letters_NoDup : NoDup all_letters.
Proof. apply (bool_decide_unpack _). vm_compute. exact I. Qed.

Lemma slot_lt c : slot c < n_letters.
Proof.
  unfold slot. destruct (list_find _ _) as [[k x]|] eqn:Hf.
  - apply list_find_Some in Hf as (Hk & _). apply lookup_lt_Some in Hk.
    unfold n_letters. lia.
  - unfold n_letters. lia.
Qed.

Lemma slot_elem c k : all_letters !! k = Some c → slot c = k.
Proof.
  intros Hk. unfold slot. destruct (list_find _ _) as [[k' x]|] eqn:Hf.
  - apply list_find_Some in Hf as (Hk' & -> & _).
    by eapply NoDup_lookup; [apply all_letters_NoDup|..].
  - apply list_find_None in Hf. rewrite Forall_forall in Hf.
    destruct (Hf c); [by eapply list_elem_of_lookup_2 | done].
Qed.

Lemma slot_not_elem c : c ∉ all_letters → slot c = n_letters - 1.
Proof.
  intros Hc. unfold slot. destruct (list_find _ _) as [[k x]|] eqn:Hf; [|done].
  apply list_find_Some in Hf as (Hk & -> & _).
  destruct Hc. by eapply list_elem_of_lookup_2.
Qed.

Lemma py_index_find c : py_index n_letters (find all_letters c) = Ok (slot c).
Proof.
  unfold find, slot. destruct (list_find _ _) as [[k x]|] eqn:Hf.
  - apply list_find_Some in Hf as (Hk & _). apply lookup_lt_Some in Hk.
    apply py_index_nat. unfold n_letters. lia.
  - apply py_index_last. unfold n_letters. lia.
Qed.

(** ** One-hot rows *)

Lemma one_hot_insert n k :
  k < n → one_hot n k (<[k := 1%Z]> (replicate n 0%Z)).
Proof.
  intros Hk. split_and!; [by rewrite length_insert, length_replicate | done |].
  intros j Hj. case_decide as Hjk.
  - subst j. apply list_lookup_insert_eq. by rewrite length_replicate.
  - rewrite list_lookup_insert_ne by done. by apply lookup_replicate_2.
Qed.

(** ** The encoders *)

Lemma hot_update c :
  update_at (zeros2 1 n_letters) 0
    (λ r, update_at r (find all_letters c) (λ _, Ok 1%Z))
  = Ok (hot c).
Proof.
  unfold zeros2. cbn [replicate].
  erewrite (update_at_Ok _ 0%Z 0); [done | done | done |].
  eapply update_at_Ok; [|by apply lookup_replicate_2, slot_lt | done].
  rewrite length_replicate. apply py_index_find.
Qed.

(** After [k] passes of its loop, [inputTensor] has encoded the first [k]
    characters and left the other timesteps at zero. *)
Lemma inputTensor_prefix (line : str) k :
  k ≤ length line →
  for_each
    (λ tensor li,
       letter ← getitem line (Z.of_nat li);
       update_at tensor (Z.of_nat li) (λ m,
         update_at m 0 (λ r,
           update_at r (find all_letters letter) (λ _, Ok 1%Z))))
    (zeros3 (length line) 1 n_letters) (seq 0 k)
  = Ok ((hot <$> take k line)
        ++ replicate (length line - k) (zeros2 1 n_letters)).
Proof.
  induction k as [|k IH]; intros Hk.
  - cbn. unfold zeros3. by rewrite Nat.sub_0_r.
  - rewrite seq_S, for_each_snoc, IH by lia. cbn [mbind result_bind plus].
    destruct (lookup_lt_is_Some_2 line k) as [c Hc]; [lia|].
    rewrite (getitem_nat _ _ _ Hc). cbn [mbind result_bind].
    assert (length (hot <$> take k line) = k) as Hlen
      by (rewrite length_fmap, length_take; lia).
    rewrite (update_at_Ok _ _ k (zeros2 1 n_letters) (hot c)).
    + f_equal. rewrite (take_S_r _ _ _ Hc), fmap_app, <- app_assoc.
      rewrite insert_app_r_alt, Hlen, Nat.sub_diag by lia. f_equal.
      replace (length line - k) with (S (length line - S k)) by lia. done.
    + apply py_index_nat. rewrite length_app, Hlen, length_replicate. lia.
    + rewrite lookup_app_r, Hlen, Nat.sub_diag by lia.
      apply lookup_replicate_2. lia.
    + apply hot_update.
Qed.

Lemma inputTensor_Ok (line : str) : inputTensor line = Ok (hot <$> line).
Proof.
  unfold inputTensor. rewrite inputTensor_prefix by done.
  by rewrite take_ge, Nat.sub_diag, app_nil_r.
Qed.

Lemma categoryTensor_Ok (all_categories : list str) category k :
  index all_categories category = Ok k →
  categoryTensor all_categories category
  = Ok [ <[k := 1%Z]> (replicate (length all_categories) 0%Z) ].
Proof.
  intros Hk. unfold categoryTensor. rewrite Hk. cbn [mbind result_bind].
  unfold zeros2, n_categories. cbn [replicate].
  erewrite (update_at_Ok _ 0%Z 0); [done | done | done |].
  assert (k < length all_categories) as Hlt.
  { unfold index in Hk. destruct (list_find _ _) as [[k' x]|] eqn:Hf; [|done].
    injection Hk as ->. apply list_find_Some in Hf as (Hf & _).
    by eapply lookup_lt_Some. }
  eapply update_at_Ok; [|by apply lookup_replicate_2 | done].
  rewrite length_replicate. by apply py_index_nat.
Qed.

Lemma targetTensor_Ok (line : str) :
  targetTensor line
  = Ok ((find all_letters <$> drop 1 line) ++ [Z.of_nat n_letters - 1]%Z).
Proof.
  unfold targetTensor.
  assert (∀ (rest : str) (pre : str),
    comprehension
      (λ li, letter ← getitem (pre ++ rest) (Z.of_nat li);
             Ok (find all_letters letter))
      (seq (length pre) (length rest))
    = Ok (find all_letters <$> rest)) as Hcomp.
  { induction rest as [|c rest IH]; intros pre; [done|].
    cbn [length seq comprehension].
    rewrite (getitem_nat _ _ c) by by rewrite list_lookup_middle.
    cbn [mbind result_bind].
    specialize (IH (pre ++ [c])). rewrite <- app_assoc in IH. cbn in IH.
    rewrite length_app in IH. cbn in IH.
    replace (length pre + 1) with (S (length pre)) in IH by lia.
    rewrite IH. done. }
  destruct line as [|c line]; [done|].
  specialize (Hcomp line [c]). cbn [length app] in *.
  replace (S (length line) - 1) with (length line) by lia.
  cbn [drop]. rewrite Hcomp. done.
Qed.




(** C3. For a category of [all_categories], [categoryTensor] is one row
    with a single one, at the category's position in [all_categories], and
    zeros elsewhere; for a line over [all_letters], every timestep of
    [inputTensor] is one row with a single one, at the character's position
    in [all_letters], and zeros elsewhere. *)
Theorem one_hot_encoding (all_categories : list str) (category line : str)
    (Hcat : category ∈ all_categories)
    (Hline : ∀ c, c ∈ line → c ∈ all_letters) :
  (∃ k r, index all_categories category = Ok k
          ∧ all_categories !! k = Some category
          ∧ categoryTensor all_categories category = Ok [r]
          ∧ one_hot (n_categories all_categories) k r)
  ∧ (∃ t, inputTensor line = Ok t ∧ length t = length line
          ∧ ∀ li c, line !! li = Some c →
              ∃ k r, all_letters !! k = Some c
                     ∧ find all_letters c = Z.of_nat k
                     ∧ t !! li = Some [r]
                     ∧ one_hot n_letters k r).
Proof.
  split.
  - destruct (index_elem all_categories category Hcat) as (k & Hk & Hkc & _).
    eexists k, _. split_and!; [done | done | by apply categoryTensor_Ok |].
    apply one_hot_insert. by eapply lookup_lt_Some.
  - exists (hot <$> line).
    split_and!; [apply inputTensor_Ok | by rewrite length_fmap |].
    intros li c Hc.
    destruct (find_elem all_letters c) as (k & Hf & Hk & _).
    { apply Hline. by eapply list_elem_of_lookup_2. }
    eexists k, _. split_and!; [done | done | |].
    + rewrite list_lookup_fmap, Hc. done.
    + rewrite (slot_elem c k Hk). apply one_hot_insert.
      apply lookup_lt_Some in Hk. unfold n_letters. lia.
Qed.

Lemma one_hot_encoding_witness :
  let cats := [of_string "Russian"; of_string "German"] in
  let line := of_string "Abe" in
  (∃ k r, index cats (of_string "German") = Ok k
          ∧ cats !! k = Some (of_string "German")
          ∧ categoryTensor cats (of_string "German") = Ok [r]
          ∧ one_hot (n_categories cats) k r)
  ∧ (∃ t, inputTensor line = Ok t ∧ length t = length line
          ∧ ∀ li c, line !! li = Some c →
              ∃ k r, all_letters !! k = Some c
                     ∧ find all_letters c = Z.of_nat k
                     ∧ t !! li = Some [r]
                     ∧ one_hot n_letters k r).
Proof.
  intros cats line.
  apply (one_hot_encoding cats (of_string "German") line).
  - by_computation.
  - apply Forall_forall. by_computation.
Defined.



(** The characters [targetTensor] looks up keep the raw result of [find]. *)
Lemma targetTensor_lookup (line : str) li c t :
  targetTensor line = Ok t → line !! S li = Some c →
  t !! li = Some (find all_letters c).
Proof.
  rewrite targetTensor_Ok. intros [= <-] Hc.
  rewrite lookup_app_l.
  - rewrite list_lookup_fmap, lookup_drop. cbn. by rewrite Hc.
  - rewrite length_fmap, length_drop. apply lookup_lt_Some in Hc. lia.
Qed.

Lemma find_bounds (s' : str) c :
  (-1 ≤ find s' c < Z.of_nat (length s'))%Z.
Proof.
  unfold find. destruct (list_find _ _) as [[k x]|] eqn:Hf; [|lia].
  apply list_find_Some in Hf as (Hk & _). apply lookup_lt_Some in Hk. lia.
Qed.

(** C10, as the code has it. For a line containing a character unknown to
    [all_letters], neither encoder raises; [find] gives [-1]; [inputTensor]
    puts the one of that timestep at the last position [n_letters - 1],
    where the EOS marker would be; [targetTensor] stores, for every
    character after the first, what [find] gives for it, so it keeps the
    [-1] as the target index of the unknown character (when it is not the
    first one); the final entry of the target, and no other, is
    [n_letters - 1]. *)
Theorem unknown_letter_encoding (line : str) (li : nat) (c : char)
    (Hc : line !! li = Some c) (Hunknown : c ∉ all_letters) :
  find all_letters c = (-1)%Z
  ∧ (∃ t r, inputTensor line = Ok t ∧ t !! li = Some [r]
            ∧ one_hot n_letters (n_letters - 1) r)
  ∧ (∃ t, targetTensor line = Ok t
          ∧ length t = length line
          ∧ t !! (length line - 1) = Some (Z.of_nat n_letters - 1)%Z
          ∧ (0 < li → t !! (li - 1) = Some (-1)%Z)
          ∧ (∀ i c', line !! S i = Some c' →
               t !! i = Some (find all_letters c'))
          ∧ (∀ i, t !! i = Some (Z.of_nat n_letters - 1)%Z ↔
                  i = length line - 1)).
Proof.
  pose proof (find_not_elem all_letters c Hunknown) as Hf.
  apply lookup_lt_Some in Hc as Hlt.
  assert (((find all_letters <$> drop 1 line)
             ++ [(Z.of_nat n_letters - 1)%Z]) !! (length line - 1)
          = Some (Z.of_nat n_letters - 1)%Z) as Hlast.
  { rewrite lookup_app_r by (rewrite length_fmap, length_drop; lia).
    rewrite length_fmap, length_drop. by rewrite Nat.sub_diag. }
  split_and!; [done| |].
  - eexists (hot <$> line), _. split_and!; [apply inputTensor_Ok | |].
    + by rewrite list_lookup_fmap, Hc.
    + rewrite (slot_not_elem c Hunknown). apply one_hot_insert.
      unfold n_letters. lia.
  - eexists. split_and!; [apply targetTensor_Ok | | done | | |].
    + rewrite length_app, length_fmap, length_drop. cbn. lia.
    + intros Hpos. rewrite <- Hf.
      apply (targetTensor_lookup line); [apply targetTensor_Ok|].
      by replace (S (li - 1)) with li by lia.
    + intros i c' Hc'.
      by apply (targetTensor_lookup line); [apply targetTensor_Ok|].
    + intros i. split; [|by intros ->].
      intros Hi. destruct (decide (i = length line - 1)) as [|Hne]; [done|].
      apply lookup_lt_Some in Hi as Hil.
      rewrite length_app, length_fmap, length_drop in Hil. cbn in Hil.
      destruct (lookup_lt_is_Some_2 line (S i)) as [c' Hc']; [lia|].
      rewrite (targetTensor_lookup line i c' _ (targetTensor_Ok line) Hc')
        in Hi.
      pose proof (find_bounds all_letters c'). unfold n_letters in Hi.
      apply (inj Some) in Hi. lia.
Qed.

Lemma unknown_letter_encoding_witness :
  let line := of_string "a!b" in
  find all_letters 33%N = (-1)%Z
  ∧ (∃ t r, inputTensor line = Ok t ∧ t !! 1 = Some [r]
            ∧ one_hot n_letters (n_letters - 1) r)
  ∧ (∃ t, targetTensor line = Ok t
          ∧ length t = length line
          ∧ t !! (length line - 1) = Some (Z.of_nat n_letters - 1)%Z
          ∧ (0 < 1 → t !! (1 - 1) = Some (-1)%Z)
          ∧ (∀ i c', line !! S i = Some c' →
               t !! i = Some (find all_letters c'))
          ∧ (∀ i, t !! i = Some (Z.of_nat n_letters - 1)%Z ↔
                  i = length line - 1)).
Proof.
  intros line. apply (unknown_letter_encoding line 1 33%N).
  - reflexivity.
  - by_computation.
Defined.

(** C10, as stated, fails for [targetTensor]: in ["a!"] the unknown ["!"]
    gets the target index [-1], which is not [n_letters - 1]. *)
Lemma targetTensor_unknown_not_EOS :
  ∃ (line : str) (li : nat) (c : char),
    line !! S li = Some c ∧ (c ∉ all_letters)
    ∧ targetTensor line = Ok [-1; 58]%Z
    ∧ [-1; 58]%Z !! li = Some (-1)%Z
    ∧ [-1; 58]%Z !! li ≠ Some (Z.of_nat n_letters - 1)%Z.
Proof.
  exists (of_string "a!"), 0, 33%N.
  split_and!; [done | by_computation | done | done | done].
Qed.

(** ** Loading the data *)

Section LoadingFacts.
Variable normalize_NFD : str → str.
Variable category_is_Mn isspace : char → bool.
Variable basename : str → str.
Variable splitext : str → str * str.

Abbreviation unicodeToAscii' := (unicodeToAscii normalize_NFD category_is_Mn).
Abbreviation readLines' :=
  (readLines normalize_NFD category_is_Mn isspace).
Abbreviation load_data' :=
  (load_data normalize_NFD category_is_Mn isspace basename splitext).

Lemma unicodeToAscii_elem s c :
  c ∈ unicodeToAscii' s ↔
  c ∈ normalize_NFD s ∧ category_is_Mn c = false ∧ c ∈ all_letters.
Proof using normalize_NFD category_is_Mn.
  unfold unicodeToAscii. rewrite list_elem_of_filter.
  destruct (category_is_Mn c); cbn.
  - split; [intros [[[] _] _] | intros (_ & [=] & _)].
  - split; [intros [[_ Hc] Hn] | intros (Hn & _ & Hc)]; done.
Qed.

Lemma unicodeToAscii_sublist s : unicodeToAscii' s `sublist_of` normalize_NFD s.
Proof. apply sublist_filter. Qed.

Lemma readLines_elem content line :
  line ∈ readLines' content → ∃ raw, line = unicodeToAscii' raw.
Proof.
  unfold readLines. intros Hl.
  apply list_elem_of_fmap in Hl as (raw & -> & _). eauto.
Qed.

Lemma load_data_fold (files : list (str * str))
    (cl : gmap str (list str)) (ac : list str) :
  (foldl (λ '(category_lines, all_categories) '(filename, content),
            let category := (splitext (basename filename)).1 in
            let all_categories := all_categories ++ [category] in
            let lines := readLines' content in
            (<[category := lines]> category_lines, all_categories))
         (cl, ac) files).2
  = ac ++ ((λ f, (splitext (basename f.1)).1) <$> files).
Proof.
  revert cl ac. induction files as [|[filename content] files IH];
    intros cl ac; cbn [foldl fmap list_fmap].
  - by rewrite app_nil_r.
  - rewrite IH. by rewrite <- app_assoc.
Qed.

Lemma load_data_cases (files : list (str * str)) :
  (files = [] ∧ load_data' files = Raise (RuntimeError Data_not_found))
  ∨ (files ≠ [] ∧ ∃ category_lines,
       load_data' files
       = Ok (category_lines, (λ f, (splitext (basename f.1)).1) <$> files)).
Proof.
  unfold load_data. pose proof (load_data_fold files ∅ []) as Hfold.
  destruct (foldl _ _ files) as [cl ac]. cbn in Hfold. subst ac.
  destruct files as [|f files].
  - left. done.
  - right. split; [done|]. rewrite decide_False by done. eauto.
Qed.
End LoadingFacts.

(** C9. Every character [unicodeToAscii] returns is in [all_letters]: the
    result is what is left of the normalised string once combining marks
    and characters outside [all_letters] are dropped, in order and with
    nothing put in their place. Hence every line [readLines] returns is over
    [all_letters], [find] gives a proper position for each of its
    characters, and both encoders succeed on it with positions in range. *)
Theorem unicodeToAscii_all_letters
    (normalize_NFD : str → str) (category_is_Mn isspace : char → bool)
    (s content line : str)
    (Hline : line ∈ readLines normalize_NFD category_is_Mn isspace content) :
  (∀ c, c ∈ unicodeToAscii normalize_NFD category_is_Mn s → c ∈ all_letters)
  ∧ (∀ c, c ∈ unicodeToAscii normalize_NFD category_is_Mn s ↔
          c ∈ normalize_NFD s ∧ category_is_Mn c = false ∧ c ∈ all_letters)
  ∧ unicodeToAscii normalize_NFD category_is_Mn s `sublist_of` normalize_NFD s
  ∧ (∀ c, c ∈ line →
       c ∈ all_letters ∧ (0 ≤ find all_letters c < Z.of_nat n_letters - 1)%Z)
  ∧ (∃ t, inputTensor line = Ok t ∧ length t = length line)
  ∧ (∃ t, targetTensor line = Ok t ∧ length t = length line `max` 1
          ∧ ∀ i, i ∈ t → (0 ≤ i < Z.of_nat n_letters)%Z).
Proof.
  assert (∀ c, c ∈ line →
    c ∈ all_letters ∧ (0 ≤ find all_letters c < Z.of_nat n_letters - 1)%Z)
    as Hchars.
  { intros c Hc. apply readLines_elem in Hline as [raw ->].
    apply unicodeToAscii_elem in Hc as (_ & _ & Hc). split; [done|].
    destruct (find_elem all_letters c Hc) as (k & -> & Hk & _).
    apply lookup_lt_Some in Hk. unfold n_letters. lia. }
  split_and!.
  - intros c Hc. by apply unicodeToAscii_elem in Hc as (_ & _ & Hc).
  - apply unicodeToAscii_elem.
  - apply unicodeToAscii_sublist.
  - done.
  - exists (hot <$> line). split; [apply inputTensor_Ok|].
    by rewrite length_fmap.
  - eexists. split_and!; [apply targetTensor_Ok | |].
    + rewrite length_app, length_fmap, length_drop. cbn. lia.
    + intros i Hi. apply elem_of_app in Hi as [Hi|Hi].
      * apply list_elem_of_fmap in Hi as (c & -> & Hc).
        apply list_elem_of_lookup in Hc as [j Hj]. rewrite lookup_drop in Hj.
        destruct (Hchars c); [by eapply list_elem_of_lookup_2 | lia].
      * apply list_elem_of_singleton in Hi as ->. unfold n_letters. lia.
Qed.

Lemma unicodeToAscii_all_letters_witness :
  let normalize_NFD := λ s : str, s in
  let category_is_Mn := λ c : char, bool_decide (768 ≤ c ≤ 879)%N in
  let isspace := λ c : char, bool_decide (c ∈ [9; 10; 13; 32]%N) in
  let content :=
    of_string "Abe" ++ [10%N] ++ of_string "O'Ne" ++ [769%N]
      ++ of_string "al" ++ [10%N] in
  let s := of_string "O'Ne" ++ [769%N] ++ of_string "al" in
  let line := of_string "O'Neal" in
  (∀ c, c ∈ unicodeToAscii normalize_NFD category_is_Mn s → c ∈ all_letters)
  ∧ (∀ c, c ∈ unicodeToAscii normalize_NFD category_is_Mn s ↔
          c ∈ normalize_NFD s ∧ category_is_Mn c = false ∧ c ∈ all_letters)
  ∧ unicodeToAscii normalize_NFD category_is_Mn s `sublist_of` normalize_NFD s
  ∧ (∀ c, c ∈ line →
       c ∈ all_letters ∧ (0 ≤ find all_letters c < Z.of_nat n_letters - 1)%Z)
  ∧ (∃ t, inputTensor line = Ok t ∧ length t = length line)
  ∧ (∃ t, targetTensor line = Ok t ∧ length t = length line `max` 1
          ∧ ∀ i, i ∈ t → (0 ≤ i < Z.of_nat n_letters)%Z).
Proof.
  intros normalize_NFD category_is_Mn isspace content s line.
  apply (unicodeToAscii_all_letters normalize_NFD category_is_Mn isspace
           s content line).
  by_computation.
Defined.

(** C7. Loading raises the "Data not found" failure exactly when no file
    matched; it raises nothing else, and with at least one file it returns
    one category per file. *)
Theorem load_data_guard
    (normalize_NFD : str → str) (category_is_Mn isspace : char → bool)
    (basename : str → str) (splitext : str → str * str)
    (files : list (str * str)) :
  (load_data normalize_NFD category_is_Mn isspace basename splitext files
     = Raise (RuntimeError Data_not_found) ↔ files = [])
  ∧ (∀ e, load_data normalize_NFD category_is_Mn isspace basename splitext files
            = Raise e → e = RuntimeError Data_not_found ∧ files = [])
  ∧ (files ≠ [] ↔
     ∃ category_lines all_categories,
       load_data normalize_NFD category_is_Mn isspace basename splitext files
         = Ok (category_lines, all_categories)
       ∧ n_categories all_categories = length files
       ∧ n_categories all_categories ≠ 0).
Proof.
  destruct (load_data_cases normalize_NFD category_is_Mn isspace basename
              splitext files) as [[-> Hr]|[Hne [cl Hok]]].
  - rewrite Hr. split_and!; [done | by intros e [= <-] |].
    split; [done | by intros (? & ? & [=] & _)].
  - rewrite Hok. split_and!; [split; [done|by intros ->] | done |].
    split; [|done]. intros _. eexists _, _. split_and!; [done | |].
    + unfold n_categories. by rewrite length_fmap.
    + unfold n_categories. rewrite length_fmap. by destruct files.
Qed.

(** The guard on concrete directories: an empty one, and one with two name
    files. *)
Example load_data_empty :
  load_data (λ s, s) (λ _, false) (λ _, false) (λ s, s) (λ s, (s, [])) []
  = Raise (RuntimeError Data_not_found).
Proof. reflexivity. Qed.

Example load_data_two_files :
  ∃ category_lines,
    load_data (λ s, s) (λ _, false) (λ c, bool_decide (c = 10%N))
      (λ s, s) (λ s, (take (length s - 4) s, drop (length s - 4) s))
      [ (of_string "Russian.txt", of_string "Ivanov" ++ [10%N]);
        (of_string "German.txt", of_string "Bauer" ++ [10%N]) ]
    = Ok (category_lines, [of_string "Russian"; of_string "German"])
    ∧ category_lines !! of_string "German" = Some [of_string "Bauer"].
Proof. eexists. split; vm_compute; reflexivity. Qed.

(** ** The sampling loop *)

Section SamplerFacts.
Variable all_categories : list str.
Variables (Hidden Output Rng : Type).
Variable rnn : Rng → tensor2 → tensor2 → Hidden → Output * Hidden * Rng.
Variable initHidden : Hidden.
Variable topk1 : Output → nat.

Abbreviation state := (loop_state Hidden Rng).
Abbreviation sample_body' := (sample_body Hidden Output Rng rnn topk1).
Abbreviation sample_loop' := (sample_loop Hidden Output Rng rnn topk1).
Abbreviation sample' :=
  (sample all_categories Hidden Output Rng rnn initHidden topk1).

Lemma sample_body_inv cat (st : state) r :
  sample_body' cat st = Ok r →
  ∃ input0 output h g,
    getitem (input _ _ st) 0 = Ok input0
    ∧ rnn (rng _ _ st) cat input0 (hidden _ _ st) = (output, h, g)
    ∧ ((topk1 output = n_letters - 1
        ∧ r = Break _ _ {| input := input _ _ st; hidden := h;
                           output_name := output_name _ _ st; rng := g |})
       ∨ (topk1 output ≠ n_letters - 1
          ∧ ∃ letter, all_letters !! topk1 output = Some letter
             ∧ r = Continue _ _
                     {| input := [hot letter]; hidden := h;
                        output_name := output_name _ _ st ++ [letter];
                        rng := g |})).
Proof using Type.
  unfold sample_body.
  destruct (getitem (input _ _ st) 0) as [input0|] eqn:Hin; [|done].
  cbn [mbind result_bind].
  destruct (rnn _ _ _ _) as [[output h] g] eqn:Hrnn.
  case_decide as Htop.
  - intros [= <-]. eexists _, _, _, _. split_and!; [done..|]. left. done.
  - destruct (getitem all_letters _) as [letter|] eqn:Hl; [|done].
    cbn [mbind result_bind]. rewrite inputTensor_Ok. cbn.
    intros [= <-]. eexists _, _, _, _. split_and!; [done..|]. right.
    split; [done|]. exists letter. split; [|done]. by apply getitem_nat_Ok.
Qed.

Lemma sample_loop_appended n cat (st st' : state) :
  sample_loop' n cat st = Ok st' →
  ∃ appended, output_name _ _ st' = output_name _ _ st ++ appended
              ∧ length appended ≤ n
              ∧ Forall letter_below_EOS appended.
Proof using Type.
  revert st. induction n as [|n IH]; intros st; cbn [sample_loop].
  - intros [= <-]. exists []. by rewrite app_nil_r.
  - destruct (sample_body' cat st) as [r|] eqn:Hbody; [|done].
    cbn [mbind result_bind].
    apply sample_body_inv in Hbody
      as (input0 & output & h & g & _ & _ & [[Htop ->]|[Htop (c & Hc & ->)]]).
    + intros [= <-]. exists []. cbn. rewrite app_nil_r.
      split_and!; [done | lia | done].
    + intros Hloop. apply IH in Hloop as (appended & Hname & Hlen & Hall).
      exists (c :: appended). cbn in Hname. rewrite <- app_assoc in Hname.
      split_and!; [done | cbn; lia |]. constructor; [|done].
      exists (topk1 output). split; [|done].
      apply lookup_lt_Some in Hc. unfold n_letters in *. lia.
Qed.

Section InRange.
(** The network scores [n_letters] outputs, so the best one is among
    them. *)
Hypothesis topk1_range : ∀ o, topk1 o < n_letters.

Lemma sample_loop_total n cat (st : state) :
  input _ _ st ≠ [] → succeeds (sample_loop' n cat st).
Proof using topk1_range.
  revert st. induction n as [|n IH]; intros st Hin; cbn [sample_loop].
  - by eexists.
  - unfold sample_body. destruct (input _ _ st) as [|input0 rest] eqn:Hi;
      [done|].
    rewrite getitem_first. cbn [mbind result_bind].
    destruct (rnn _ _ _ _) as [[output h] g].
    case_decide as Htop; cbn [mbind result_bind]; [by eexists|].
    destruct (lookup_lt_is_Some_2 all_letters (topk1 output)) as [c Hc].
    { specialize (topk1_range output). unfold n_letters in *. lia. }
    rewrite (getitem_nat _ _ _ Hc). cbn [mbind result_bind].
    rewrite inputTensor_Ok. cbn [mbind result_bind]. by apply IH.
Qed.

Lemma sample_total g category start_letter :
  category ∈ all_categories → start_letter ≠ [] →
  succeeds (sample' g category start_letter).
Proof using topk1_range.
  intros Hcat Hstart. unfold sample.
  destruct (index_elem all_categories category Hcat) as (k & Hk & _).
  rewrite (categoryTensor_Ok _ _ _ Hk). cbn [mbind result_bind].
  rewrite inputTensor_Ok. cbn [mbind result_bind].
  edestruct sample_loop_total as [st ->]; [|by eexists].
  cbn. by destruct start_letter.
Qed.
End InRange.

Lemma sample_appended g category start_letter name g' :
  sample' g category start_letter = Ok (name, g') →
  ∃ appended, name = start_letter ++ appended
              ∧ length appended ≤ max_length
              ∧ Forall letter_below_EOS appended.
Proof using Type.
  unfold sample.
  destruct (categoryTensor _ _) as [cat|]; [|done]. cbn [mbind result_bind].
  destruct (inputTensor _) as [input0|]; [|done]. cbn [mbind result_bind].
  destruct (sample_loop' _ _ _) as [st|] eqn:Hloop; [|done].
  cbn. intros [= <- <-]. by apply sample_loop_appended in Hloop.
Qed.

(** The bound the loop does enforce: the start string plus at most
    [max_length] letters. *)
Lemma sample_length_bound g category start_letter name g' :
  sample' g category start_letter = Ok (name, g') →
  length name ≤ length start_letter + max_length.
Proof using Type.
  intros Hs. apply sample_appended in Hs as (appended & -> & Hlen & _).
  rewrite length_app. lia.
Qed.

Lemma sample_loop_EOS n cat (st : state) input0 output h g :
  getitem (input _ _ st) 0 = Ok input0 →
  rnn (rng _ _ st) cat input0 (hidden _ _ st) = (output, h, g) →
  topk1 output = n_letters - 1 →
  sample_loop' (S n) cat st
  = Ok {| input := input _ _ st; hidden := h;
          output_name := output_name _ _ st; rng := g |}.
Proof using Type.
  intros Hin Hrnn Htop. cbn [sample_loop]. unfold sample_body.
  rewrite Hin. cbn [mbind result_bind]. rewrite Hrnn.
  by rewrite decide_True.
Qed.
End SamplerFacts.

(** C5. Whenever the best-scoring index is the EOS index [n_letters - 1],
    the loop ends with that pass, however many passes were left: the name
    is the one built so far and the network has been called just that once
    more. The sampler returns, and what it returns is the start string
    followed by at most [max_length] characters, each one a letter of
    [all_letters] found below the EOS index. *)
Theorem sample_stops_at_EOS
    (all_categories : list str) (Hidden Output Rng : Type)
    (rnn : Rng → tensor2 → tensor2 → Hidden → Output * Hidden * Rng)
    (initHidden : Hidden) (topk1 : Output → nat)
    (g : Rng) (category start_letter : str)
    (Hrange : ∀ o, topk1 o < n_letters)
    (Hcat : category ∈ all_categories)
    (Hstart : start_letter ≠ []) :
  (∀ n cat (st : loop_state Hidden Rng) input0 output h g',
     getitem (input _ _ st) 0 = Ok input0 →
     rnn (rng _ _ st) cat input0 (hidden _ _ st) = (output, h, g') →
     topk1 output = n_letters - 1 →
     sample_loop Hidden Output Rng rnn topk1 (S n) cat st
     = Ok {| input := input _ _ st; hidden := h;
             output_name := output_name _ _ st; rng := g' |})
  ∧ (∃ name g' appended,
       sample all_categories Hidden Output Rng rnn initHidden topk1
         g category start_letter = Ok (name, g')
       ∧ name = start_letter ++ appended
       ∧ length appended ≤ max_length
       ∧ Forall letter_below_EOS appended
       ∧ ∀ c, c ∈ appended → c ∈ all_letters).
Proof.
  split.
  - intros n cat st input0 output h g'. apply sample_loop_EOS.
  - destruct (sample_total all_categories Hidden Output Rng rnn initHidden
                topk1 Hrange g category start_letter Hcat Hstart)
      as [[name g'] Hs].
    destruct (sample_appended _ _ _ _ _ _ _ _ _ _ _ _ Hs)
      as (appended & -> & Hlen & Hall).
    exists (start_letter ++ appended), g', appended.
    split_and!; [done..|].
    intros c Hc. rewrite Forall_forall in Hall.
    destruct (Hall c Hc) as (t & _ & Ht). by eapply list_elem_of_lookup_2.
Qed.

Lemma scripted_topk1_range script :
  Forall (λ t, t < n_letters) script → ∀ o, scripted_topk1 script o < n_letters.
Proof.
  intros Hs o. unfold scripted_topk1.
  destruct (script !! o) as [t|] eqn:Ho; cbn.
  - rewrite Forall_forall in Hs. apply Hs. by eapply list_elem_of_lookup_2.
  - unfold n_letters. lia.
Qed.

Lemma sample_stops_at_EOS_witness :
  let cats := [of_string "Russian"] in
  let topk1 := scripted_topk1 [14; 21; 58; 0; 0] in
  (∀ n cat (st : loop_state unit nat) input0 output h g',
     getitem (input _ _ st) 0 = Ok input0 →
     scripted_rnn (rng _ _ st) cat input0 (hidden _ _ st) = (output, h, g') →
     topk1 output = n_letters - 1 →
     sample_loop unit nat nat scripted_rnn topk1 (S n) cat st
     = Ok {| input := input _ _ st; hidden := h;
             output_name := output_name _ _ st; rng := g' |})
  ∧ (∃ name g' appended,
       sample cats unit nat nat scripted_rnn () topk1
         0 (of_string "Russian") (of_string "R") = Ok (name, g')
       ∧ name = of_string "R" ++ appended
       ∧ length appended ≤ max_length
       ∧ Forall letter_below_EOS appended
       ∧ ∀ c, c ∈ appended → c ∈ all_letters).
Proof.
  intros cats topk1.
  apply (sample_stops_at_EOS cats unit nat nat scripted_rnn () topk1
           0 (of_string "Russian") (of_string "R")).
  - apply scripted_topk1_range. by_computation.
  - by_computation.
  - discriminate.
Defined.

(** The scripted network says "o", "v", EOS: the sampler returns "Rov" after
    three calls and ignores the rest of the script. *)
Example sample_Rov :
  sample [of_string "Russian"] unit nat nat scripted_rnn ()
    (scripted_topk1 [14; 21; 58; 0; 0]) 0 (of_string "Russian")
    (of_string "R")
  = Ok (of_string "Rov", 3).
Proof. vm_compute. reflexivity. Qed.

(** C1 fails on the code: with a network that never scores EOS best, the
    loop appends a letter in each of its [max_length] passes to a name that
    already holds the start letter, and returns 21 characters. *)
Theorem sample_returns_21_characters :
  ∃ name g',
    sample [of_string "Russian"] unit nat nat scripted_rnn ()
      (scripted_topk1 (replicate 20 0)) 0 (of_string "Russian")
      (of_string "A")
    = Ok (name, g')
    ∧ name = of_string "Aaaaaaaaaaaaaaaaaaaaa"
    ∧ length name = 21
    ∧ max_length < length name
    ∧ length name = length (of_string "A") + max_length.
Proof.
  eexists _, _. split_and!.
  - vm_compute. reflexivity.
  - vm_compute. reflexivity.
  - vm_compute. reflexivity.
  - by_computation.
  - vm_compute. reflexivity.
Qed.


(** * Further properties of the sequence-model notebook *)

Section BuilderGrowth.
Context `{Countable K}.
Implicit Types (toks : list K) (m : gmap K nat).

Lemma add_token_keeps m x t i :
  m !! t = Some i → Tagger.add_token m x !! t = Some i.
Proof.
  intros Ht. unfold Tagger.add_token. destruct (m !! x) eqn:Hx; [done|].
  rewrite lookup_insert_ne; [done | congruence].
Qed.

Lemma foldl_add_token_keeps toks m t i :
  m !! t = Some i → foldl Tagger.add_token m toks !! t = Some i.
Proof.
  revert m. induction toks as [|x toks IH]; intros m Ht; [done|].
  cbn [foldl]. by apply IH, add_token_keeps.
Qed.

Lemma build_index_app (c1 c2 : list (list K)) :
  Tagger.build_index (c1 ++ c2)
  = foldl Tagger.add_token (Tagger.build_index c1) (concat c2).
Proof.
  unfold Tagger.build_index. by rewrite foldl_app, (foldl_concat _ _ c2).
Qed.

Lemma distinct_before_ge toks1 toks2 k :
  length toks1 ≤ k → n_distinct toks1 ≤ distinct_before (toks1 ++ toks2) k.
Proof.
  intros Hk. unfold n_distinct, distinct_before. apply subseteq_size.
  intros y. rewrite !elem_of_list_to_set. intros Hy.
  apply list_elem_of_lookup in Hy as [j Hj]. apply elem_of_take.
  exists j. apply lookup_lt_Some in Hj as Hlt.
  split; [by rewrite lookup_app_l | lia].
Qed.
End BuilderGrowth.

(** X1. Growing the corpus never renumbers. Every token indexed after
    [c1] keeps its index after [c1 ++ c2], and that index is below [len] of
    the old dictionary; every token of the grown dictionary that does not
    occur in [c1] has an index from [len] of the old dictionary upwards;
    the dictionary never shrinks. The three parts hold for all corpora
    independently: [c2] may bring in no new token at all. *)
Theorem build_index_grows `{Countable K} (c1 c2 : list (list K)) :
  (∀ t i, Tagger.build_index c1 !! t = Some i →
          Tagger.build_index (c1 ++ c2) !! t = Some i
          ∧ i < size (Tagger.build_index c1))
  ∧ (∀ u j, Tagger.build_index (c1 ++ c2) !! u = Some j →
            u ∉ concat c1 →
            size (Tagger.build_index c1) ≤ j)
  ∧ size (Tagger.build_index c1) ≤ size (Tagger.build_index (c1 ++ c2)).
Proof.
  pose proof (indexes_build c1) as H1.
  pose proof (indexes_build (c1 ++ c2)) as H12.
  rewrite concat_app in H12. split_and!.
  - intros t i Ht. split.
    + rewrite build_index_app. by apply foldl_add_token_keeps.
    + by eapply indexes_lt.
  - intros u j Hu Hnew.
    apply (ix_first _ _ H12) in Hu as (k & [Hk Hn] & ->).
    rewrite (ix_size _ _ H1). apply distinct_before_ge.
    destruct (decide (length (concat c1) ≤ k)) as [|Hlt]; [done|].
    rewrite lookup_app_l in Hk by lia.
    destruct Hnew. by eapply list_elem_of_lookup_2.
  - rewrite (ix_size _ _ H1), (ix_size _ _ H12).
    rewrite <- (distinct_before_all (concat c1 ++ concat c2)).
    apply distinct_before_ge. rewrite length_app. lia.
Qed.

Lemma build_index_grows_witness :
  let c1 := [["the"; "dog"]]%string in
  let c2 := [["the"; "cat"]]%string in
  (Tagger.build_index (c1 ++ c2) !! "dog"%string = Some 1
   ∧ 1 < size (Tagger.build_index c1))
  ∧ size (Tagger.build_index c1) ≤ 2
  ∧ (Tagger.build_index (c1 ++ [["the"]]%string) !! "the"%string = Some 0
     ∧ 0 < size (Tagger.build_index c1)).
Proof.
  intros c1 c2.
  destruct (build_index_grows c1 c2) as (Hold & Hnew & _).
  destruct (build_index_grows c1 [["the"]]%string) as (Hold' & _ & _).
  split; [|split].
  - apply (Hold "dog"%string 1). vm_compute. reflexivity.
  - apply (Hnew "cat"%string 2).
    + vm_compute. reflexivity.
    + by_computation.
  - apply (Hold' "the"%string 0). vm_compute. reflexivity.
Defined.

Lemma elem_of_concat {A} (x : A) (l : list A) (ll : list (list A)) :
  l ∈ ll → x ∈ l → x ∈ concat ll.
Proof.
  intros Hl Hx. induction ll as [|l' ll IH]; [by apply elem_of_nil in Hl|].
  cbn [concat]. apply elem_of_app.
  apply elem_of_cons in Hl as [->|Hl]; [by left | right; by apply IH].
Qed.

Section PrepareFacts.
Context `{Countable K}.

Lemma prepare_sequence_Ok (to_ix : gmap K nat) seq idxs :
  Tagger.prepare_sequence seq to_ix = Ok idxs ↔
  Forall2 (λ w i, to_ix !! w = Some i) seq idxs.
Proof.
  unfold Tagger.prepare_sequence. revert idxs.
  induction seq as [|w seq IH]; intros idxs; cbn [comprehension].
  - split; [intros [= <-]; constructor | by intros ->%Forall2_nil_inv_l].
  - destruct (to_ix !! w) as [i|] eqn:Hw; cbn [mbind result_bind].
    + destruct (comprehension _ seq) as [js|e] eqn:Hs; cbn.
      * split.
        -- intros [= <-]. constructor; [done | by apply IH].
        -- intros (i' & js' & Hi & His & ->)%Forall2_cons_inv_l.
           apply IH in His. by simplify_eq.
      * split; [done|].
        intros (i' & js' & _ & His & ->)%Forall2_cons_inv_l.
        by apply IH in His.
    + split; [done|].
      intros (i' & js' & Hi & _ & ->)%Forall2_cons_inv_l. congruence.
Qed.

Lemma prepare_sequence_Raise (to_ix : gmap K nat) seq e :
  Tagger.prepare_sequence seq to_ix = Raise e ↔
  e = KeyError ∧ ∃ w, w ∈ seq ∧ to_ix !! w = None.
Proof.
  unfold Tagger.prepare_sequence. revert e.
  induction seq as [|w seq IH]; intros e; cbn [comprehension].
  - split; [done | by intros (_ & w & Hw%elem_of_nil & _)].
  - destruct (to_ix !! w) as [i|] eqn:Hw; cbn [mbind result_bind].
    + destruct (comprehension _ seq) as [js|e'] eqn:Hs; cbn.
      * split; [done|]. intros (-> & w' & Hin & Hw').
        apply elem_of_cons in Hin as [->|Hin]; [congruence|].
        assert (Ok js = Raise KeyError) as [=]. apply IH. eauto.
      * destruct (proj1 (IH e') eq_refl) as (-> & w' & Hin & Hw').
        split.
        -- intros [= <-]. split; [done|]. exists w'. split; [by right | done].
        -- by intros (-> & _).
    + split.
      * intros [= <-]. split; [done|]. exists w. split; [by left | done].
      * by intros (-> & _).
Qed.
End PrepareFacts.

(** X2. [prepare_sequence], with its conversion to a [torch.long] tensor,
    returns, position by position, the index the dictionary holds for each
    token, when every token is a key and every such index fits in 64 signed
    bits; the result is as long as the sequence. It raises [KeyError]
    exactly when some token is not a key, a [RuntimeError] exactly when
    every token is a key and the index of one of them does not fit, and
    nothing else. *)
Theorem prepare_sequence_spec `{Countable K}
    (to_ix : gmap K nat) (seq : list K) :
  (∀ idxs, Tagger.prepare_sequence_tensor seq to_ix = Ok idxs ↔
           Forall2 (λ w i, to_ix !! w = Some i) seq idxs
           ∧ Forall Tagger.fits_long idxs)
  ∧ (Tagger.prepare_sequence_tensor seq to_ix = Raise KeyError ↔
     ∃ w, w ∈ seq ∧ to_ix !! w = None)
  ∧ ((∃ msg, Tagger.prepare_sequence_tensor seq to_ix
             = Raise (RuntimeError msg)) ↔
     (∀ w, w ∈ seq → is_Some (to_ix !! w))
     ∧ ∃ w i, w ∈ seq ∧ to_ix !! w = Some i ∧ ¬ Tagger.fits_long i)
  ∧ (∀ e, Tagger.prepare_sequence_tensor seq to_ix = Raise e →
          e = KeyError ∨ ∃ msg, e = RuntimeError msg)
  ∧ (∀ idxs, Tagger.prepare_sequence_tensor seq to_ix = Ok idxs →
             length idxs = length seq).
Proof.
  unfold Tagger.prepare_sequence_tensor, Tagger.long_tensor.
  destruct (Tagger.prepare_sequence seq to_ix) as [l|e] eqn:Hp.
  - apply prepare_sequence_Ok in Hp as Hl.
    assert (∀ w, w ∈ seq → is_Some (to_ix !! w)) as Hkeys.
    { intros w [k Hk]%list_elem_of_lookup.
      destruct (Forall2_lookup_l _ _ _ _ _ Hl Hk) as (i & _ & Hi). by exists i. }
    assert (∀ idxs, Forall2 (λ w i, to_ix !! w = Some i) seq idxs → idxs = l)
      as Hfun.
    { intros idxs Hi%prepare_sequence_Ok. congruence. }
    cbn. case_decide as Hfit; split_and!.
    + intros idxs. split; [by intros [= <-]|].
      by intros [->%Hfun _].
    + split; [done|]. intros (w & Hw%Hkeys & Hn). rewrite Hn in Hw.
      by destruct Hw.
    + split; [by intros [? ?]|]. intros (_ & w & i & Hw & Hi & Hbig).
      destruct Hbig. apply list_elem_of_lookup in Hw as [k Hk].
      destruct (Forall2_lookup_l _ _ _ _ _ Hl Hk) as (i' & Hi' & Hwi).
      assert (i' = i) as -> by congruence.
      eapply Forall_lookup_1; eauto.
    + done.
    + intros idxs [= <-]. symmetry. by eapply Forall2_length.
    + intros idxs. split; [done|]. by intros [->%Hfun ?].
    + split; [done|]. intros (w & Hw%Hkeys & Hn). rewrite Hn in Hw.
      by destruct Hw.
    + split; [intros _|by eexists]. split; [done|].
      apply not_Forall_Exists in Hfit; [|apply _].
      apply Exists_exists in Hfit as (i & [k Hk]%list_elem_of_lookup & Hbig).
      destruct (Forall2_lookup_r _ _ _ _ _ Hl Hk) as (w & Hw & Hwi).
      exists w, i. split_and!; [by eapply list_elem_of_lookup_2 | done | done].
    + intros e [= <-]. right. by eexists.
    + done.
  - apply prepare_sequence_Raise in Hp as (-> & w & Hw & Hn).
    cbn. split_and!.
    + intros idxs. split; [done|].
      intros [Hi%prepare_sequence_Ok _].
      assert (Tagger.prepare_sequence seq to_ix = Raise KeyError) as Hr
        by (apply prepare_sequence_Raise; eauto).
      congruence.
    + split; [eauto | done].
    + split; [by intros [? ?]|]. intros (Hkeys & _).
      apply Hkeys in Hw. rewrite Hn in Hw. by destruct Hw.
    + intros e [= <-]. by left.
    + done.
Qed.

Lemma prepare_sequence_in_range `{Countable K}
    (corpus : list (list K)) (seq : list K) :
  (∀ w, w ∈ seq → w ∈ concat corpus) →
  ∃ idxs, Tagger.prepare_sequence seq (Tagger.build_index corpus) = Ok idxs
          ∧ length idxs = length seq
          ∧ Forall (λ i, i < size (Tagger.build_index corpus)) idxs.
Proof.
  intros Hseq. pose proof (indexes_build corpus) as Hix.
  destruct (Tagger.prepare_sequence seq _) as [idxs|e] eqn:Hp.
  - exists idxs. apply prepare_sequence_Ok in Hp.
    split_and!; [done | symmetry; by eapply Forall2_length |].
    apply Forall_forall. intros i Hi.
    apply list_elem_of_lookup in Hi as [k Hk].
    destruct (Forall2_lookup_r _ _ _ _ _ Hp Hk) as (w & _ & Hw).
    by eapply indexes_lt.
  - apply prepare_sequence_Raise in Hp as (_ & w & Hin & Hw).
    apply Hseq, (ix_dom _ _ Hix) in Hin as [? ?]. congruence.
Qed.

(** On the notebook's first sentence the conversion to a tensor changes
    nothing. *)
Example prepare_sequence_tensor_first_sentence :
  Tagger.prepare_sequence_tensor
    ["The"; "dog"; "ate"; "the"; "apple"]%string Tagger.word_to_ix
  = Ok [0; 1; 2; 3; 4].
Proof. vm_compute. reflexivity. Qed.

(** X3. With the dictionary built from a corpus, every sentence of that
    corpus is prepared without error, and all the indices are below
    [len(to_ix)], the number of rows of the embedding table. *)
Theorem prepare_sequence_corpus `{Countable K}
    (corpus : list (list K)) (sentence : list K)
    (Hin : sentence ∈ corpus) :
  ∃ idxs, Tagger.prepare_sequence sentence (Tagger.build_index corpus) = Ok idxs
          ∧ length idxs = length sentence
          ∧ Forall (λ i, i < size (Tagger.build_index corpus)) idxs.
Proof.
  apply prepare_sequence_in_range. intros w Hw. by eapply elem_of_concat.
Qed.

Lemma prepare_sequence_corpus_witness :
  let corpus := fst <$> Tagger.training_data in
  let sentence := ["Everybody"; "read"; "that"; "book"]%string in
  ∃ idxs, Tagger.prepare_sequence sentence (Tagger.build_index corpus) = Ok idxs
          ∧ length idxs = length sentence
          ∧ Forall (λ i, i < size (Tagger.build_index corpus)) idxs.
Proof.
  intros corpus sentence. apply (prepare_sequence_corpus corpus sentence).
  by_computation.
Defined.

Lemma comprehension_Forall2 {A B} (f : A → result B) (P : A → B → Prop) l :
  (∀ x, x ∈ l → ∃ y, f x = Ok y ∧ P x y) →
  ∃ ys, comprehension f l = Ok ys ∧ Forall2 P l ys.
Proof.
  induction l as [|x l IH]; intros Hl; cbn [comprehension].
  - exists []. by split.
  - destruct (Hl x) as (y & -> & Hy); [by left|].
    destruct IH as (ys & -> & Hys); [intros; apply Hl; by right|].
    exists (y :: ys). split; [done | by constructor].
Qed.

(** X4. With both dictionaries built from a corpus, [prepare_both_sequences]
    succeeds on every sentence of it: one word index per word, one list of
    character indices per word with one index per character, all of them
    valid rows of their embedding tables. *)
Theorem prepare_both_sequences_corpus
    (corpus : list (list string)) (sentence : list string)
    (Hin : sentence ∈ corpus) :
  let word_to_ix := Tagger.build_index corpus in
  let char_to_ix :=
    Tagger.build_index
      ((λ sent, mjoin (list_ascii_of_string <$> sent)) <$> corpus) in
  ∃ words chars,
    Tagger.prepare_both_sequences sentence word_to_ix char_to_ix
      = Ok (words, chars)
    ∧ length words = length sentence
    ∧ Forall (λ i, i < size word_to_ix) words
    ∧ Forall2 (λ w cs, length cs = length (list_ascii_of_string w)
                       ∧ Forall (λ i, i < size char_to_ix) cs)
              sentence chars.
Proof.
  intros word_to_ix char_to_ix. unfold Tagger.prepare_both_sequences.
  destruct (comprehension_Forall2
    (λ w, Tagger.prepare_sequence (list_ascii_of_string w) char_to_ix)
    (λ w cs, length cs = length (list_ascii_of_string w)
             ∧ Forall (λ i, i < size char_to_ix) cs) sentence)
    as (chars & -> & Hchars).
  { intros w Hw.
    destruct (prepare_sequence_in_range
      ((λ sent, mjoin (list_ascii_of_string <$> sent)) <$> corpus)
      (list_ascii_of_string w)) as (cs & Hcs & Hlen & Hlt).
    - intros ch Hch.
      apply (elem_of_concat _ (mjoin (list_ascii_of_string <$> sentence))).
      + apply list_elem_of_fmap. eauto.
      + apply list_elem_of_join. exists (list_ascii_of_string w).
        split; [done|]. apply list_elem_of_fmap. eauto.
    - eauto. }
  cbn [mbind result_bind].
  destruct (prepare_sequence_in_range corpus sentence)
    as (words & Hwords & Hlen & Hlt); [intros w Hw; by eapply elem_of_concat|].
  fold word_to_ix in Hwords, Hlt. rewrite Hwords. cbn.
  exists words, chars. done.
Qed.

Lemma prepare_both_sequences_corpus_witness :
  let corpus := fst <$> Tagger.training_data in
  let sentence := ["The"; "dog"; "ate"; "the"; "apple"]%string in
  let word_to_ix := Tagger.build_index corpus in
  let char_to_ix :=
    Tagger.build_index
      ((λ sent, mjoin (list_ascii_of_string <$> sent)) <$> corpus) in
  ∃ words chars,
    Tagger.prepare_both_sequences sentence word_to_ix char_to_ix
      = Ok (words, chars)
    ∧ length words = length sentence
    ∧ Forall (λ i, i < size word_to_ix) words
    ∧ Forall2 (λ w cs, length cs = length (list_ascii_of_string w)
                       ∧ Forall (λ i, i < size char_to_ix) cs)
              sentence chars.
Proof.
  intros corpus sentence.
  apply (prepare_both_sequences_corpus corpus sentence). by_computation.
Defined.


(** * Further properties of the name-generation notebook *)

Lemma index_not_elem {A} `{EqDecision A} (l : list A) (x : A) :
  x ∉ l → index l x = Raise ValueError.
Proof.
  intros Hx. unfold index.
  destruct (list_find (λ y, y = x) l) as [[k y]|] eqn:Hf; [|done].
  apply list_find_Some in Hf as (Hk & -> & _).
  destruct Hx. by eapply list_elem_of_lookup_2.
Qed.

Lemma one_hot_insert_inj n k k' :
  k < n → <[k := 1%Z]> (replicate n 0%Z) = <[k' := 1%Z]> (replicate n 0%Z) →
  k = k'.
Proof.
  intros Hk Heq. destruct (decide (k = k')) as [|Hne]; [done|].
  assert (<[k' := 1%Z]> (replicate n 0%Z) !! k = Some 1%Z) as Hl.
  { rewrite <- Heq. apply list_lookup_insert_eq. by rewrite length_replicate. }
  rewrite list_lookup_insert_ne in Hl by done.
  by rewrite lookup_replicate_2 in Hl.
Qed.

(** X5. [categoryTensor] raises exactly for a category that is not in
    [all_categories], with the [ValueError] of [list.index]; on the known
    categories it is injective: two categories with the same tensor are the
    same category. *)
Theorem categoryTensor_injective (all_categories : list str) (c1 c2 : str)
    (H1 : c1 ∈ all_categories)
    (Heq : categoryTensor all_categories c1 = categoryTensor all_categories c2) :
  c1 = c2
  ∧ (∀ c e, categoryTensor all_categories c = Raise e ↔
            e = ValueError ∧ c ∉ all_categories).
Proof.
  assert (∀ c e, categoryTensor all_categories c = Raise e ↔
                 e = ValueError ∧ c ∉ all_categories) as Herr.
  { intros c e. destruct (decide (c ∈ all_categories)) as [Hc|Hc].
    - destruct (index_elem _ _ Hc) as (k & Hk & _).
      rewrite (categoryTensor_Ok _ _ _ Hk). split; [done | by intros [_ ?]].
    - unfold categoryTensor. rewrite (index_not_elem _ _ Hc). cbn.
      split; [by intros [= <-] | by intros [-> _]]. }
  split; [|done].
  destruct (index_elem _ _ H1) as (k1 & Hk1 & Hl1 & _).
  rewrite (categoryTensor_Ok _ _ _ Hk1) in Heq.
  destruct (decide (c2 ∈ all_categories)) as [H2|H2].
  - destruct (index_elem _ _ H2) as (k2 & Hk2 & Hl2 & _).
    rewrite (categoryTensor_Ok _ _ _ Hk2) in Heq. injection Heq as Heq.
    apply one_hot_insert_inj in Heq; [|by eapply lookup_lt_Some].
    congruence.
  - assert (categoryTensor all_categories c2 = Raise ValueError) as Hr
      by by apply Herr.
    congruence.
Qed.

Lemma categoryTensor_injective_witness :
  let cats := [of_string "Russian"; of_string "German"] in
  of_string "German" = of_string "German"
  ∧ (∀ c e, categoryTensor cats c = Raise e ↔ e = ValueError ∧ c ∉ cats).
Proof.
  intros cats.
  apply (categoryTensor_injective cats (of_string "German")
           (of_string "German")).
  - by_computation.
  - reflexivity.
Defined.

(** X6. The training pairs line up. For a line over [all_letters] both
    encoders succeed; the target of timestep [i] is the position of the one
    in the input of timestep [i + 1] (the next letter), the last target is
    the EOS index, which is the position of no letter. A non-empty line has
    as many targets as timesteps; the empty line has no timestep and still
    one target. *)
Theorem training_pairs_aligned (line : str)
    (Hline : ∀ c, c ∈ line → c ∈ all_letters) :
  ∃ t targets,
    inputTensor line = Ok t ∧ targetTensor line = Ok targets
    ∧ length t = length line
    ∧ length targets = length line `max` 1
    ∧ (∀ i r, t !! S i = Some [r] →
         ∃ k, targets !! i = Some (Z.of_nat k) ∧ one_hot n_letters k r)
    ∧ last targets = Some (Z.of_nat n_letters - 1)%Z
    ∧ (∀ i r k, t !! i = Some [r] → one_hot n_letters k r →
         k < n_letters - 1).
Proof.
  eexists (hot <$> line), _.
  split_and!; [apply inputTensor_Ok | apply targetTensor_Ok | ..].
  - by rewrite length_fmap.
  - rewrite length_app, length_fmap, length_drop. cbn. lia.
  - intros i r Hr. rewrite list_lookup_fmap in Hr.
    destruct (line !! S i) as [c|] eqn:Hc; [|done].
    assert (r = <[slot c := 1%Z]> (replicate n_letters 0%Z)) as ->
      by (unfold hot in Hr; cbn in Hr; congruence).
    destruct (find_elem all_letters c) as (k & Hf & Hk & _).
    { apply Hline. by eapply list_elem_of_lookup_2. }
    exists k. split.
    + rewrite <- Hf. apply (targetTensor_lookup line); [apply targetTensor_Ok|].
      done.
    + rewrite (slot_elem c k Hk). apply one_hot_insert.
      apply lookup_lt_Some in Hk. unfold n_letters. lia.
  - by rewrite last_snoc.
  - intros i r k Hr Hhot. rewrite list_lookup_fmap in Hr.
    destruct (line !! i) as [c|] eqn:Hc; [|done].
    assert (r = <[slot c := 1%Z]> (replicate n_letters 0%Z)) as ->
      by (unfold hot in Hr; cbn in Hr; congruence).
    destruct (find_elem all_letters c) as (k' & _ & Hk' & _).
    { apply Hline. by eapply list_elem_of_lookup_2. }
    rewrite (slot_elem c k' Hk') in Hhot.
    apply lookup_lt_Some in Hk' as Hlt.
    assert (k = k') as ->; [|unfold n_letters; lia].
    destruct Hhot as (_ & Hk & Hrow).
    assert (k' < n_letters) as Hlt' by (unfold n_letters; lia).
    specialize (Hrow k' Hlt').
    assert (<[k' := 1%Z]> (replicate n_letters 0%Z) !! k' = Some 1%Z) as Hl.
    { apply list_lookup_insert_eq. rewrite length_replicate.
      unfold n_letters. lia. }
    rewrite Hl in Hrow. by case_decide.
Qed.

Lemma training_pairs_aligned_witness :
  let line := of_string "Abe" in
  ∃ t targets,
    inputTensor line = Ok t ∧ targetTensor line = Ok targets
    ∧ length t = length line
    ∧ length targets = length line `max` 1
    ∧ (∀ i r, t !! S i = Some [r] →
         ∃ k, targets !! i = Some (Z.of_nat k) ∧ one_hot n_letters k r)
    ∧ last targets = Some (Z.of_nat n_letters - 1)%Z
    ∧ (∀ i r k, t !! i = Some [r] → one_hot n_letters k r →
         k < n_letters - 1).
Proof.
  intros line. apply (training_pairs_aligned line).
  apply Forall_forall. by_computation.
Defined.


(** ** More on loading *)

Lemma filter_all {A} (P : A → Prop) `{∀ x, Decision (P x)} (l : list A) :
  Forall P l → filter P l = l.
Proof.
  induction 1 as [|x l Hx Hl IH]; [done|].
  rewrite filter_cons_True by done. by rewrite IH.
Qed.

(** X7. Where the Unicode database leaves strings over [all_letters] alone
    (their NFD form is themselves, none of their characters is a combining
    mark), [unicodeToAscii] is the identity on such strings, and in general
    applying it twice is applying it once. *)
Theorem unicodeToAscii_idempotent
    (normalize_NFD : str → str) (category_is_Mn : char → bool) (s : str)
    (Hnfd : ∀ s, (∀ c, c ∈ s → c ∈ all_letters) → normalize_NFD s = s)
    (HMn : ∀ c, c ∈ all_letters → category_is_Mn c = false) :
  ((∀ c, c ∈ s → c ∈ all_letters) →
   unicodeToAscii normalize_NFD category_is_Mn s = s)
  ∧ unicodeToAscii normalize_NFD category_is_Mn
      (unicodeToAscii normalize_NFD category_is_Mn s)
    = unicodeToAscii normalize_NFD category_is_Mn s.
Proof.
  assert (∀ s, (∀ c, c ∈ s → c ∈ all_letters) →
               unicodeToAscii normalize_NFD category_is_Mn s = s) as Hid.
  { intros s' Hs'. unfold unicodeToAscii. rewrite (Hnfd s' Hs').
    apply filter_all, Forall_forall. intros c Hc. split; [|by apply Hs'].
    rewrite (HMn c) by by apply Hs'. done. }
  split; [apply Hid|]. apply Hid. intros c Hc.
  by apply unicodeToAscii_elem in Hc as (_ & _ & Hc).
Qed.

Lemma unicodeToAscii_idempotent_witness :
  let normalize_NFD := λ s : str, s in
  let category_is_Mn := λ c : char, bool_decide (768 ≤ c ≤ 879)%N in
  let s := of_string "O'Ne" ++ [769%N] ++ of_string "al" in
  ((∀ c, c ∈ s → c ∈ all_letters) →
   unicodeToAscii normalize_NFD category_is_Mn s = s)
  ∧ unicodeToAscii normalize_NFD category_is_Mn
      (unicodeToAscii normalize_NFD category_is_Mn s)
    = unicodeToAscii normalize_NFD category_is_Mn s.
Proof.
  intros normalize_NFD category_is_Mn s.
  apply (unicodeToAscii_idempotent normalize_NFD category_is_Mn s).
  - reflexivity.
  - apply Forall_forall. by_computation.
Defined.

Lemma split_on_length sep (s : str) :
  length (split_on sep s) = S (length (filter (λ c, c = sep) s)).
Proof.
  induction s as [|c s IH]; [done|]. cbn [split_on].
  destruct (decide (c = sep)) as [->|Hne].
  - rewrite filter_cons_True by done. cbn. by rewrite IH.
  - rewrite filter_cons_False by done.
    destruct (split_on sep s) as [|w ws]; [done|]. by rewrite <- IH.
Qed.

Lemma newline_not_letter : 10%N ∉ all_letters.
Proof. by_computation. Qed.

(** X8. [readLines] never returns an empty list: it returns one line more
    than the stripped content has newline characters, and no line contains
    a newline. *)
Theorem readLines_count
    (normalize_NFD : str → str) (category_is_Mn isspace : char → bool)
    (content : str) :
  length (readLines normalize_NFD category_is_Mn isspace content)
  = S (length (filter (λ c, c = 10%N) (strip isspace content)))
  ∧ readLines normalize_NFD category_is_Mn isspace content ≠ []
  ∧ Forall (λ line, 10%N ∉ line)
      (readLines normalize_NFD category_is_Mn isspace content).
Proof.
  assert (length (readLines normalize_NFD category_is_Mn isspace content)
          = S (length (filter (λ c, c = 10%N) (strip isspace content))))
    as Hlen by (unfold readLines; by rewrite length_fmap, split_on_length).
  split_and!; [done | |].
  - intros Hnil. by rewrite Hnil in Hlen.
  - apply Forall_forall. intros line Hl Hnl.
    apply readLines_elem in Hl as [raw ->].
    apply unicodeToAscii_elem in Hnl as (_ & _ & Hnl).
    by apply newline_not_letter.
Qed.

Lemma readLines_nonempty
    (normalize_NFD : str → str) (category_is_Mn isspace : char → bool)
    (content : str) :
  readLines normalize_NFD category_is_Mn isspace content ≠ [].
Proof.
  intros Hnil. apply (f_equal length) in Hnil.
  unfold readLines in Hnil. by rewrite length_fmap, split_on_length in Hnil.
Qed.

Lemma drop_while_all {A} (p : A → bool) (l : list A) :
  Forall (λ x, p x = true) l → drop_while p l = [].
Proof.
  induction 1 as [|x l Hx Hl IH]; [done|]. cbn. by rewrite Hx.
Qed.

(** X9. A file with nothing but white space in it (an empty file too) is
    read as one empty name, not as no name. *)
Theorem readLines_blank
    (normalize_NFD : str → str) (category_is_Mn isspace : char → bool)
    (content : str)
    (Hnfd : normalize_NFD [] = [])
    (Hblank : Forall (λ c, isspace c = true) content) :
  readLines normalize_NFD category_is_Mn isspace content = [[]].
Proof.
  unfold readLines, strip. rewrite (drop_while_all _ _ Hblank).
  cbn. unfold unicodeToAscii. by rewrite Hnfd.
Qed.

Lemma readLines_blank_witness :
  readLines (λ s, s) (λ _, false) (λ c, bool_decide (c ∈ [9; 10; 13; 32]%N))
    [32; 10; 10]%N
  = [[]].
Proof.
  apply (readLines_blank (λ s, s) (λ _, false)
           (λ c, bool_decide (c ∈ [9; 10; 13; 32]%N)) [32; 10; 10]%N).
  - reflexivity.
  - by_computation.
Defined.

Section DictionaryFacts.
Variable normalize_NFD : str → str.
Variable category_is_Mn isspace : char → bool.
Variable basename : str → str.
Variable splitext : str → str * str.

Abbreviation category_of' := (category_of basename splitext).
Abbreviation read' := (readLines normalize_NFD category_is_Mn isspace).

Abbreviation decides' := (decides basename splitext).

Lemma load_data_lookup (files : list (str * str)) (c : str) (lines : list str) :
  (foldl (λ '(category_lines, all_categories) '(filename, content),
            let category := (splitext (basename filename)).1 in
            let all_categories := all_categories ++ [category] in
            let lines := read' content in
            (<[category := lines]> category_lines, all_categories))
         (∅ : gmap str (list str), []) files).1 !! c = Some lines
  ↔ ∃ i content, decides' files c i content ∧ lines = read' content.
Proof using Type.
  revert lines. induction files as [|[filename content] files IH] using rev_ind;
    intros lines.
  - cbn. rewrite lookup_empty. split; [done|].
    by intros (i & content & [(? & ? & _) _] & _).
  - rewrite foldl_app. cbn [foldl].
    destruct (foldl _ _ files) as [cl ac]. cbn [fst] in *.
    destruct (decide ((splitext (basename filename)).1 = c)) as [Hc|Hc].
    + rewrite Hc, lookup_insert_eq. split.
      * intros [= <-]. exists (length files), content. split; [|done]. split.
        -- exists filename. by rewrite list_lookup_middle.
        -- intros j file Hj Hfile. apply lookup_lt_Some in Hfile.
           rewrite length_app in Hfile. cbn in Hfile. lia.
      * intros (i & content' & [(filename' & Hi & _) Hlast] & ->).
        destruct (decide (i = length files)) as [->|Hne].
        -- rewrite list_lookup_middle in Hi by done. by simplify_eq.
        -- apply lookup_lt_Some in Hi as Hlt.
           rewrite length_app in Hlt. cbn in Hlt.
           destruct (Hlast (length files) (filename, content));
             [lia | by rewrite list_lookup_middle | done].
    + rewrite lookup_insert_ne by done. rewrite IH. split.
      * intros (i & content' & [(filename' & Hi & Hcat) Hlast] & ->).
        exists i, content'. split; [|done]. split.
        -- exists filename'. apply lookup_lt_Some in Hi as Hlt.
           by rewrite lookup_app_l.
        -- intros j file Hj Hfile.
           destruct (decide (j < length files)) as [Hjl|Hjl].
           ++ rewrite lookup_app_l in Hfile by done. by eapply Hlast.
           ++ apply lookup_lt_Some in Hfile as Hjl'.
              rewrite length_app in Hjl'. cbn in Hjl'.
              assert (j = length files) as -> by lia.
              rewrite list_lookup_middle in Hfile by done. by simplify_eq.
      * intros (i & content' & [(filename' & Hi & Hcat) Hlast] & ->).
        destruct (decide (i = length files)) as [->|Hne].
        { rewrite list_lookup_middle in Hi by done. by simplify_eq. }
        apply lookup_lt_Some in Hi as Hlt. rewrite length_app in Hlt.
        cbn in Hlt. rewrite lookup_app_l in Hi by lia.
        exists i, content'. split; [|done]. split; [eauto|].
        intros j file Hj Hfile. apply (Hlast j file Hj).
        apply lookup_lt_Some in Hfile as Hjl. by rewrite lookup_app_l.
Qed.

Lemma load_data_dom (files : list (str * str)) (c : str) :
  let r :=
    foldl (λ '(category_lines, all_categories) '(filename, content),
             let category := (splitext (basename filename)).1 in
             let all_categories := all_categories ++ [category] in
             let lines := read' content in
             (<[category := lines]> category_lines, all_categories))
          (∅ : gmap str (list str), []) files in
  is_Some (r.1 !! c) ↔ c ∈ r.2.
Proof using Type.
  induction files as [|[filename content] files IH] using rev_ind.
  - cbn. rewrite lookup_empty, elem_of_nil. split; [by intros [] | done].
  - cbn zeta in *. rewrite foldl_app. cbn [foldl].
    destruct (foldl _ _ files) as [cl ac]. cbn [fst snd] in *.
    rewrite lookup_insert_is_Some, elem_of_app, list_elem_of_singleton, IH.
    split.
    + intros [Hc|[_ Hc]]; [by right | by left].
    + intros [Hc|Hc]; [|by left].
      destruct (decide ((splitext (basename filename)).1 = c));
        [by left | by right].
Qed.
End DictionaryFacts.

Lemma load_data_inv
    (normalize_NFD : str → str) (category_is_Mn isspace : char → bool)
    (basename : str → str) (splitext : str → str * str)
    (files : list (str * str))
    (category_lines : gmap str (list str)) (all_categories : list str)
    (Hload : load_data normalize_NFD category_is_Mn isspace basename splitext
               files = Ok (category_lines, all_categories)) :
  all_categories = category_of basename splitext <$> files
  ∧ (∀ c, c ∈ all_categories ↔ is_Some (category_lines !! c))
  ∧ (∀ c lines,
       category_lines !! c = Some lines ↔
       ∃ i content,
         decides basename splitext files c i content
         ∧ lines = readLines normalize_NFD category_is_Mn isspace content)
  ∧ (∀ c lines, category_lines !! c = Some lines → lines ≠ [])
  ∧ all_categories ≠ [].
Proof.
  unfold load_data in Hload.
  pose proof (load_data_fold normalize_NFD category_is_Mn isspace basename
                splitext files ∅ []) as Hcats.
  pose proof (load_data_lookup normalize_NFD category_is_Mn isspace basename
                splitext files) as Hlook.
  pose proof (load_data_dom normalize_NFD category_is_Mn isspace basename
                splitext files) as Hdom.
  cbn zeta in Hdom.
  destruct (foldl _ _ files) as [cl ac]. cbn [fst snd app] in *.
  case_decide as Hn; [done|]. injection Hload as <- <-.
  split_and!; [done | | done | |].
  - intros c. by rewrite Hdom.
  - intros c lines (i & content & _ & ->)%Hlook Hnil.
    by destruct (readLines_nonempty normalize_NFD category_is_Mn isspace
                   content).
  - intros Hnil. apply Hn. by rewrite Hnil.
Qed.

(** X10. What [load_data] returns: [all_categories] lists the category of
    every file, in file order; the keys of [category_lines] are exactly
    those categories; the entry of a category is what [readLines] gives for
    the last file of that category, and it is never an empty list. *)
Theorem load_data_dictionary
    (normalize_NFD : str → str) (category_is_Mn isspace : char → bool)
    (basename : str → str) (splitext : str → str * str)
    (files : list (str * str))
    (category_lines : gmap str (list str)) (all_categories : list str)
    (Hload : load_data normalize_NFD category_is_Mn isspace basename splitext
               files = Ok (category_lines, all_categories)) :
  all_categories = category_of basename splitext <$> files
  ∧ (∀ c, c ∈ all_categories ↔ is_Some (category_lines !! c))
  ∧ (∀ c lines,
       category_lines !! c = Some lines ↔
       ∃ i content,
         decides basename splitext files c i content
         ∧ lines = readLines normalize_NFD category_is_Mn isspace content)
  ∧ (∀ c lines, category_lines !! c = Some lines → lines ≠ []).
Proof.
  destruct (load_data_inv normalize_NFD category_is_Mn isspace basename
              splitext files category_lines all_categories Hload)
    as (H1 & H2 & H3 & H4 & _).
  done.
Qed.

Lemma load_data_dictionary_witness :
  let files :=
    [ (of_string "Russian.txt", of_string "Ivanov" ++ [10%N]);
      (of_string "German.txt", of_string "Bauer" ++ [10%N]) ] in
  let normalize_NFD := λ s : str, s in
  let category_is_Mn := λ _ : char, false in
  let isspace := λ c : char, bool_decide (c = 10%N) in
  let basename := λ s : str, s in
  let splitext := λ s : str, (take (length s - 4) s, drop (length s - 4) s) in
  let category_lines : gmap str (list str) :=
    <[of_string "German" := [of_string "Bauer"]]>
      (<[of_string "Russian" := [of_string "Ivanov"]]> ∅) in
  let all_categories := [of_string "Russian"; of_string "German"] in
  all_categories = category_of basename splitext <$> files
  ∧ (∀ c, c ∈ all_categories ↔ is_Some (category_lines !! c))
  ∧ (∀ c lines,
       category_lines !! c = Some lines ↔
       ∃ i content,
         decides basename splitext files c i content
         ∧ lines = readLines normalize_NFD category_is_Mn isspace content)
  ∧ (∀ c lines, category_lines !! c = Some lines → lines ≠ []).
Proof.
  intros files normalize_NFD category_is_Mn isspace basename splitext
    category_lines all_categories.
  apply (load_data_dictionary normalize_NFD category_is_Mn isspace basename
           splitext files category_lines all_categories).
  vm_compute. reflexivity.
Defined.


(** ** Random training examples *)

Lemma counter_draw_within_bounds : within_bounds counter_draw.
Proof. intros g a b Hab. unfold counter_draw. cbn. lia. Qed.

Section RandomFacts.
Variable PyRng : Type.
Variable random_draw : PyRng → Z → Z → Z * PyRng.
Hypothesis random_draw_ok : within_bounds random_draw.

Lemma randomChoice_Ok {A} (g : PyRng) (l : list A) :
  l ≠ [] →
  ∃ x, randomChoice PyRng random_draw g l
       = Ok (x, (random_draw g 0%Z (Z.of_nat (length l) - 1)%Z).2)
       ∧ l !! Z.to_nat (random_draw g 0%Z (Z.of_nat (length l) - 1)%Z).1 = Some x
       ∧ x ∈ l.
Proof using random_draw_ok.
  intros Hl. unfold randomChoice, randint.
  assert (0 < length l) as Hlen by (destruct l; [done | cbn; lia]).
  rewrite decide_True by lia.
  pose proof (random_draw_ok g 0%Z (Z.of_nat (length l) - 1)%Z ltac:(lia))
    as Hr.
  destruct (random_draw g 0%Z (Z.of_nat (length l) - 1)%Z) as [i g'].
  cbn [fst snd] in *. cbn [mbind result_bind].
  destruct (lookup_lt_is_Some_2 l (Z.to_nat i)) as [x Hx]; [lia|].
  exists x. rewrite <- (Z2Nat.id i) at 1 by lia.
  rewrite (getitem_nat _ _ _ Hx). cbn.
  split_and!; [done | done | by eapply list_elem_of_lookup_2].
Qed.

Lemma randomChoice_nil {A} (g : PyRng) :
  randomChoice PyRng random_draw g (@nil A) = Raise ValueError.
Proof using Type. reflexivity. Qed.

Lemma randomTrainingPair_Ok all_categories category_lines (g : PyRng) :
  all_categories ≠ [] →
  (∀ c, c ∈ all_categories →
     ∃ lines, category_lines !! c = Some lines ∧ lines ≠ []) →
  ∃ category lines line g',
    randomTrainingPair all_categories category_lines PyRng random_draw g
      = Ok (category, line, g')
    ∧ category ∈ all_categories
    ∧ category_lines !! category = Some lines
    ∧ line ∈ lines.
Proof using random_draw_ok.
  intros Hne Hlines. unfold randomTrainingPair.
  destruct (randomChoice_Ok g all_categories Hne) as (category & -> & _ & Hc).
  cbn [mbind result_bind].
  destruct (Hlines category Hc) as (lines & Hl & Hlne). rewrite Hl.
  cbn [mbind result_bind].
  destruct (randomChoice_Ok
    (random_draw g 0%Z (Z.of_nat (length all_categories) - 1)%Z).2 lines Hlne)
    as (line & -> & _ & Hline).
  cbn. eexists _, _, _, _. done.
Qed.

Lemma randomTrainingExample_Ok all_categories category_lines (g : PyRng) :
  all_categories ≠ [] →
  (∀ c, c ∈ all_categories →
     ∃ lines, category_lines !! c = Some lines ∧ lines ≠ []) →
  ∃ category lines line g' k,
    randomTrainingExample all_categories category_lines PyRng random_draw g
      = Ok ([ <[k := 1%Z]> (replicate (length all_categories) 0%Z) ],
            hot <$> line,
            (find all_letters <$> drop 1 line)
              ++ [Z.of_nat n_letters - 1]%Z,
            g')
    ∧ index all_categories category = Ok k
    ∧ category_lines !! category = Some lines
    ∧ line ∈ lines.
Proof using random_draw_ok.
  intros Hne Hlines. unfold randomTrainingExample.
  destruct (randomTrainingPair_Ok all_categories category_lines g Hne Hlines)
    as (category & lines & line & g' & -> & Hc & Hl & Hline).
  cbn [mbind result_bind].
  destruct (index_elem all_categories category Hc) as (k & Hk & _).
  rewrite (categoryTensor_Ok _ _ _ Hk). cbn [mbind result_bind].
  rewrite inputTensor_Ok. cbn [mbind result_bind].
  rewrite targetTensor_Ok. cbn.
  eexists _, _, _, _, _. done.
Qed.
End RandomFacts.

(** X11. Given that [random.randint] stays within its bounds,
    [randomChoice] returns an element of a non-empty list, the one at the
    position drawn, and raises [ValueError] on the empty list. *)
Theorem randomChoice_member {A}
    (PyRng : Type) (random_draw : PyRng → Z → Z → Z * PyRng)
    (g : PyRng) (l : list A)
    (Hdraw : within_bounds random_draw) :
  (l ≠ [] →
   ∃ x, randomChoice PyRng random_draw g l
        = Ok (x, (random_draw g 0%Z (Z.of_nat (length l) - 1)%Z).2)
        ∧ l !! Z.to_nat (random_draw g 0%Z (Z.of_nat (length l) - 1)%Z).1 = Some x
        ∧ x ∈ l)
  ∧ (l = [] → randomChoice PyRng random_draw g l = Raise ValueError).
Proof.
  split.
  - by apply randomChoice_Ok.
  - intros ->. apply randomChoice_nil.
Qed.

Lemma randomChoice_member_witness :
  let l := [of_string "Ivanov"; of_string "Petrov"; of_string "Sidorov"] in
  (l ≠ [] →
   ∃ x, randomChoice Z counter_draw 1%Z l
        = Ok (x, (counter_draw 1%Z 0%Z (Z.of_nat (length l) - 1)%Z).2)
        ∧ l !! Z.to_nat (counter_draw 1%Z 0%Z (Z.of_nat (length l) - 1)%Z).1 = Some x
        ∧ x ∈ l)
  ∧ (l = [] → randomChoice Z counter_draw 1%Z l = Raise ValueError).
Proof.
  intros l. apply (randomChoice_member Z counter_draw 1%Z l).
  intros g a b Hab. unfold counter_draw. cbn. lia.
Defined.

(** X12. On the data [load_data] returns, drawing a training example never
    fails: the category drawn is one of [all_categories], the line one of
    its lines, and the three tensors are the encodings of that pair; the
    line is over [all_letters]. *)
Theorem randomTrainingExample_loaded
    (normalize_NFD : str → str) (category_is_Mn isspace : char → bool)
    (basename : str → str) (splitext : str → str * str)
    (files : list (str * str))
    (category_lines : gmap str (list str)) (all_categories : list str)
    (PyRng : Type) (random_draw : PyRng → Z → Z → Z * PyRng) (g : PyRng)
    (Hload : load_data normalize_NFD category_is_Mn isspace basename splitext
               files = Ok (category_lines, all_categories))
    (Hdraw : within_bounds random_draw) :
  ∃ category lines line g' category_tensor target_line_tensor,
    randomTrainingPair all_categories category_lines PyRng random_draw g
      = Ok (category, line, g')
    ∧ category ∈ all_categories
    ∧ category_lines !! category = Some lines
    ∧ line ∈ lines
    ∧ (∀ c, c ∈ line → c ∈ all_letters)
    ∧ categoryTensor all_categories category = Ok category_tensor
    ∧ targetTensor line = Ok target_line_tensor
    ∧ randomTrainingExample all_categories category_lines PyRng random_draw g
      = Ok (category_tensor, hot <$> line, target_line_tensor, g').
Proof.
  destruct (load_data_inv _ _ _ _ _ _ _ _ Hload)
    as (_ & Hdom & Hlook & Hlines & Hne).
  assert (∀ c, c ∈ all_categories →
            ∃ lines, category_lines !! c = Some lines ∧ lines ≠ []) as Hall.
  { intros c [lines Hl]%Hdom. exists lines. split; [done|]. by eapply Hlines. }
  destruct (randomTrainingPair_Ok PyRng random_draw Hdraw all_categories
              category_lines g Hne Hall)
    as (category & lines & line & g' & Hpair & Hc & Hl & Hline).
  destruct (index_elem all_categories category Hc) as (k & Hk & _).
  eexists category, lines, line, g', _, _.
  split_and!; [done | done | done | done | | by apply categoryTensor_Ok
              | apply targetTensor_Ok |].
  - intros c Hin. apply Hlook in Hl as (i & content & _ & ->).
    apply readLines_elem in Hline as [raw ->].
    by apply unicodeToAscii_elem in Hin as (_ & _ & Hin).
  - unfold randomTrainingExample. rewrite Hpair. cbn [mbind result_bind].
    rewrite (categoryTensor_Ok _ _ _ Hk). cbn [mbind result_bind].
    rewrite inputTensor_Ok. cbn [mbind result_bind].
    by rewrite targetTensor_Ok.
Qed.

Lemma randomTrainingExample_loaded_witness :
  let files :=
    [ (of_string "Russian.txt", of_string "Ivanov" ++ [10%N]);
      (of_string "German.txt", of_string "Bauer" ++ [10%N]) ] in
  let category_lines : gmap str (list str) :=
    <[of_string "German" := [of_string "Bauer"]]>
      (<[of_string "Russian" := [of_string "Ivanov"]]> ∅) in
  let all_categories := [of_string "Russian"; of_string "German"] in
  ∃ category lines line g' category_tensor target_line_tensor,
    randomTrainingPair all_categories category_lines Z counter_draw 1%Z
      = Ok (category, line, g')
    ∧ category ∈ all_categories
    ∧ category_lines !! category = Some lines
    ∧ line ∈ lines
    ∧ (∀ c, c ∈ line → c ∈ all_letters)
    ∧ categoryTensor all_categories category = Ok category_tensor
    ∧ targetTensor line = Ok target_line_tensor
    ∧ randomTrainingExample all_categories category_lines Z counter_draw 1%Z
      = Ok (category_tensor, hot <$> line, target_line_tensor, g').
Proof.
  intros files category_lines all_categories.
  apply (randomTrainingExample_loaded (λ s, s) (λ _, false)
           (λ c, bool_decide (c = 10%N)) (λ s, s)
           (λ s, (take (length s - 4) s, drop (length s - 4) s))
           files category_lines all_categories Z counter_draw 1%Z).
  - vm_compute. reflexivity.
  - intros g a b Hab. unfold counter_draw. cbn. lia.
Defined.

(** ** More on sampling *)

Section SamplingFacts.
Variable all_categories : list str.
Variables (Hidden Output Rng : Type).
Variable rnn : Rng → tensor2 → tensor2 → Hidden → Output * Hidden * Rng.
Variable initHidden : Hidden.
Variable topk1 : Output → nat.

Lemma sample_unknown_category g category start_letter :
  category ∉ all_categories →
  sample all_categories Hidden Output Rng rnn initHidden topk1
    g category start_letter = Raise ValueError.
Proof using Type.
  intros Hc. unfold sample, categoryTensor.
  by rewrite (index_not_elem _ _ Hc).
Qed.

Lemma sample_empty_start g category :
  category ∈ all_categories →
  sample all_categories Hidden Output Rng rnn initHidden topk1
    g category [] = Raise IndexError.
Proof using Type.
  intros Hc. unfold sample.
  destruct (index_elem _ _ Hc) as (k & Hk & _).
  by rewrite (categoryTensor_Ok _ _ _ Hk).
Qed.

(** The loop looks at its input through the first timestep only, and at the
    name not at all. *)
Lemma sample_loop_same_head n cat (st1 st2 st1' : loop_state Hidden Rng)
    (p1 p2 a : str) :
  getitem (input _ _ st1) 0 = getitem (input _ _ st2) 0 →
  hidden _ _ st1 = hidden _ _ st2 →
  rng _ _ st1 = rng _ _ st2 →
  output_name _ _ st1 = p1 ++ a →
  output_name _ _ st2 = p2 ++ a →
  sample_loop Hidden Output Rng rnn topk1 n cat st1 = Ok st1' →
  ∃ st2' a',
    sample_loop Hidden Output Rng rnn topk1 n cat st2 = Ok st2'
    ∧ output_name _ _ st1' = p1 ++ a'
    ∧ output_name _ _ st2' = p2 ++ a'
    ∧ rng _ _ st1' = rng _ _ st2'.
Proof using Type.
  revert st1 st2 a. induction n as [|n IH];
    intros st1 st2 a Hin Hh Hg H1 H2; cbn [sample_loop].
  - intros [= <-]. by exists st2, a.
  - destruct (sample_body _ _ _ _ _ cat st1) as [r|] eqn:Hbody; [|done].
    cbn [mbind result_bind].
    apply sample_body_inv in Hbody
      as (input0 & output & h & g & Hin0 & Hrnn
          & [[Htop ->]|[Htop (c & Hc & ->)]]).
    + intros [= <-]. unfold sample_body.
      rewrite <- Hin, Hin0. cbn [mbind result_bind].
      rewrite <- Hg, <- Hh, Hrnn. rewrite decide_True by done. cbn.
      eexists _, a. done.
    + intros Hloop. unfold sample_body.
      rewrite <- Hin, Hin0. cbn [mbind result_bind].
      rewrite <- Hg, <- Hh, Hrnn. rewrite decide_False by done.
      rewrite (getitem_nat _ _ _ Hc). cbn [mbind result_bind].
      rewrite inputTensor_Ok. cbn [mbind result_bind fmap list_fmap].
      eapply (IH _ _ (a ++ [c])); [| | | | |exact Hloop]; cbn; try done.
      * by rewrite H1, <- app_assoc.
      * by rewrite H2, <- app_assoc.
Qed.
End SamplingFacts.

(** X13. [sample] fails in two cases only, given a network whose best index
    is one of its [n_letters] outputs: with [ValueError] for a category that
    is not in [all_categories], and with [IndexError] for a known category
    and an empty start string. *)
Theorem sample_raises
    (all_categories : list str) (Hidden Output Rng : Type)
    (rnn : Rng → tensor2 → tensor2 → Hidden → Output * Hidden * Rng)
    (initHidden : Hidden) (topk1 : Output → nat)
    (g : Rng) (category start_letter : str) (e : exn)
    (Hrange : ∀ o, topk1 o < n_letters) :
  sample all_categories Hidden Output Rng rnn initHidden topk1
    g category start_letter = Raise e
  ↔ (e = ValueError ∧ category ∉ all_categories)
    ∨ (e = IndexError ∧ category ∈ all_categories ∧ start_letter = []).
Proof.
  destruct (decide (category ∈ all_categories)) as [Hc|Hc].
  - destruct start_letter as [|c rest].
    + rewrite sample_empty_start by done. split.
      * intros [= <-]. by right.
      * by intros [[_ ?]|[-> _]].
    + destruct (sample_total all_categories Hidden Output Rng rnn initHidden
                  topk1 Hrange g category (c :: rest) Hc) as [r ->]; [done|].
      split; [done|]. by intros [[_ ?]|(_ & _ & ?)].
  - rewrite sample_unknown_category by done. split.
    + intros [= <-]. by left.
    + by intros [[-> _]|(_ & ? & _)].
Qed.

Lemma sample_raises_witness :
  sample [of_string "Russian"] unit nat nat scripted_rnn ()
    (scripted_topk1 [14; 21]) 0 (of_string "Klingon") (of_string "K")
  = Raise ValueError
  ↔ (ValueError = ValueError ∧ of_string "Klingon" ∉ [of_string "Russian"])
    ∨ (ValueError = IndexError
       ∧ of_string "Klingon" ∈ [of_string "Russian"]
       ∧ of_string "K" = []).
Proof.
  apply (sample_raises [of_string "Russian"] unit nat nat scripted_rnn ()
           (scripted_topk1 [14; 21]) 0 (of_string "Klingon") (of_string "K")
           ValueError).
  apply scripted_topk1_range. by_computation.
Defined.

(** X14. Of a start string only the first character is fed to the network:
    the rest is copied into the name, and the letters appended are those
    sampled for the first character alone. *)
Theorem sample_start_rest
    (all_categories : list str) (Hidden Output Rng : Type)
    (rnn : Rng → tensor2 → tensor2 → Hidden → Output * Hidden * Rng)
    (initHidden : Hidden) (topk1 : Output → nat)
    (g g' : Rng) (category : str) (c : char) (rest name : str)
    (Hs : sample all_categories Hidden Output Rng rnn initHidden topk1
            g category [c] = Ok (name, g')) :
  ∃ appended,
    name = c :: appended
    ∧ sample all_categories Hidden Output Rng rnn initHidden topk1
        g category (c :: rest) = Ok (c :: rest ++ appended, g').
Proof.
  unfold sample in *.
  destruct (categoryTensor all_categories category) as [cat|]; [|done].
  cbn [mbind result_bind] in *. rewrite inputTensor_Ok in *.
  cbn [mbind result_bind] in *.
  destruct (sample_loop _ _ _ _ _ _ _ _) as [st1|] eqn:Hloop; [|done].
  cbn in Hs. injection Hs as <- <-.
  eapply (sample_loop_same_head _ _ _ _ _ _ _ _
            {| input := hot <$> c :: rest; hidden := initHidden;
               output_name := c :: rest; rng := g |} _ [c] (c :: rest) [])
    in Hloop as (st2 & a & -> & H1 & H2 & Hg); cbn; try done.
  - exists a. cbn. by rewrite H1, H2, Hg.
  - by rewrite app_nil_r.
Qed.

Lemma sample_start_rest_witness :
  ∃ appended,
    of_string "Rov" = 82%N :: appended
    ∧ sample [of_string "Russian"] unit nat nat scripted_rnn ()
        (scripted_topk1 [14; 21; 58; 0; 0]) 0 (of_string "Russian")
        (82%N :: of_string "US")
      = Ok (82%N :: of_string "US" ++ appended, 3).
Proof.
  apply (sample_start_rest [of_string "Russian"] unit nat nat scripted_rnn ()
           (scripted_topk1 [14; 21; 58; 0; 0]) 0 3 (of_string "Russian")
           82%N (of_string "US") (of_string "Rov")).
  vm_compute. reflexivity.
Defined.

Section SamplesFacts.
Variable all_categories : list str.
Variables (Hidden Output Rng : Type).
Variable rnn : Rng → tensor2 → tensor2 → Hidden → Output * Hidden * Rng.
Variable initHidden : Hidden.
Variable topk1 : Output → nat.
Hypothesis topk1_range : ∀ o, topk1 o < n_letters.

Lemma samples_loop category (start_letters : str) (printed : list str) g :
  category ∈ all_categories →
  ∃ names g',
    for_each
      (λ '(printed, g) start_letter,
         '(name, g') ← sample all_categories Hidden Output Rng rnn initHidden
                         topk1 g category [start_letter];
         Ok (printed ++ [name], g'))
      (printed, g) start_letters
    = Ok (printed ++ names, g')
    ∧ Forall2 (λ c name, ∃ appended,
                 name = c :: appended ∧ length appended ≤ max_length
                 ∧ Forall letter_below_EOS appended)
        start_letters names.
Proof using topk1_range.
  intros Hc. revert printed g.
  induction start_letters as [|c start_letters IH]; intros printed g.
  - exists [], g. cbn. by rewrite app_nil_r.
  - cbn [for_each].
    destruct (sample_total all_categories Hidden Output Rng rnn initHidden
                topk1 topk1_range g category [c] Hc) as [[name g1] Hs];
      [done|].
    rewrite Hs. cbn [mbind result_bind].
    destruct (sample_appended _ _ _ _ _ _ _ _ _ _ _ _ Hs)
      as (appended & -> & Hlen & Hall).
    destruct (IH (printed ++ [[c] ++ appended]) g1) as (names & g' & -> & Hn).
    exists (([c] ++ appended) :: names), g'. split.
    + by rewrite <- app_assoc.
    + constructor; [|done]. by exists appended.
Qed.
End SamplesFacts.

(** X15. [samples] prints one name per start letter, in order, each
    beginning with its start letter and followed by at most [max_length]
    letters; with no start letter it prints nothing, whatever the
    category. *)
Theorem samples_one_name_per_letter
    (all_categories : list str) (Hidden Output Rng : Type)
    (rnn : Rng → tensor2 → tensor2 → Hidden → Output * Hidden * Rng)
    (initHidden : Hidden) (topk1 : Output → nat)
    (g : Rng) (category start_letters : str)
    (Hrange : ∀ o, topk1 o < n_letters)
    (Hcat : category ∈ all_categories) :
  (∃ printed g',
     samples all_categories Hidden Output Rng rnn initHidden topk1
       g category start_letters = Ok (printed, g')
     ∧ length printed = length start_letters
     ∧ Forall2 (λ c name, ∃ appended,
                  name = c :: appended ∧ length appended ≤ max_length
                  ∧ Forall letter_below_EOS appended)
         start_letters printed)
  ∧ (∀ unknown,
       samples all_categories Hidden Output Rng rnn initHidden topk1
         g unknown [] = Ok ([], g)).
Proof.
  split; [|done].
  destruct (samples_loop all_categories Hidden Output Rng rnn initHidden topk1
              Hrange category start_letters [] g Hcat)
    as (names & g' & Hs & Hn).
  exists names, g'. split_and!; [exact Hs | | done].
  symmetry. by eapply Forall2_length.
Qed.

Lemma samples_one_name_per_letter_witness :
  let cats := [of_string "Russian"] in
  let topk1 := scripted_topk1 [14; 58; 0; 58; 58] in
  (∃ printed g',
     samples cats unit nat nat scripted_rnn () topk1
       0 (of_string "Russian") (of_string "RUS") = Ok (printed, g')
     ∧ length printed = length (of_string "RUS")
     ∧ Forall2 (λ c name, ∃ appended,
                  name = c :: appended ∧ length appended ≤ max_length
                  ∧ Forall letter_below_EOS appended)
         (of_string "RUS") printed)
  ∧ (∀ unknown,
       samples cats unit nat nat scripted_rnn () topk1 0 unknown []
       = Ok ([], 0)).
Proof.
  intros cats topk1.
  apply (samples_one_name_per_letter cats unit nat nat scripted_rnn () topk1
           0 (of_string "Russian") (of_string "RUS")).
  - apply scripted_topk1_range. by_computation.
  - by_computation.
Defined.

(** The scripted network says "o", EOS, "a", EOS, EOS over the five calls
    of [samples('Russian', 'RUS')]. *)
Example samples_RUS :
  samples [of_string "Russian"] unit nat nat scripted_rnn ()
    (scripted_topk1 [14; 58; 0; 58; 58]) 0 (of_string "Russian")
    (of_string "RUS")
  = Ok ([of_string "Ro"; of_string "Ua"; of_string "S"], 5).
Proof. vm_compute. reflexivity. Qed.


(** ** Training *)





(** The targets [targetTensor] makes of letters known to [all_letters]
    are targets the criterion accepts. *)
Lemma encoded_targets_ok (line : str) :
  Forall (λ c, c ∈ all_letters) (drop 1 line) →
  Forall nll_target_ok
    ((find all_letters <$> drop 1 line) ++ [(Z.of_nat n_letters - 1)%Z]).
Proof.
  intros Hline. apply Forall_app. split.
  - apply Forall_fmap. eapply Forall_impl; [exact Hline|].
    intros c (k & Hk & Hc & _)%find_elem. cbn. left. rewrite Hk.
    apply lookup_lt_Some in Hc. unfold n_letters. lia.
  - apply Forall_singleton. left. unfold n_letters. lia.
Qed.

Section TrainFacts.
Variables (Net Hidden Output Loss Rng Number : Type).
Variable rnn : Net → Rng → tensor2 → tensor2 → Hidden → Output * Hidden * Rng.
Variable initHidden : Net → Hidden.
Variable zero_grad : Net → Net.
Variable criterion : Output → list Z → Loss.
Variable loss_radd_zero : Loss → Loss.
Variable loss_add : Loss → Loss → Loss.
Variable backward : Loss → Net → Net.
Variable update_parameters : Net → Net.
Variable item_div : Loss → nat → Number.

Abbreviation learner' := (learner Net Rng).
Abbreviation train_pass' :=
  (train_pass Net Hidden Output Loss Rng rnn criterion loss_radd_zero
     loss_add).
Abbreviation train' :=
  (train Net Hidden Output Loss Rng Number rnn initHidden zero_grad criterion
     loss_radd_zero loss_add backward update_parameters item_div).
Abbreviation pass_result' :=
  (pass_result Net Hidden Output Loss Rng rnn criterion loss_radd_zero
     loss_add).
Abbreviation pass_results' :=
  (pass_results Net Hidden Output Loss Rng rnn criterion loss_radd_zero
     loss_add).

(** A pass on a timestep that is there, with a target the criterion
    accepts, does not raise. *)
Lemma train_pass_Ok cat (input : tensor3) (targets : list Z)
    (st : learner') (h : Hidden) running k x t g' h' running' :
  input !! k = Some x → targets !! k = Some t → nll_target_ok t →
  pass_result' (net _ _ st) cat (torch_rng _ _ st, h, running) (x, t)
  = (g', h', running') →
  train_pass' cat input ((λ t, [t]) <$> targets) (st, h, running) k
  = Ok ({| net := net _ _ st; torch_rng := g';
           net_calls := net_calls _ _ st
                        ++ [CallForward cat x; CallCriterion [t]] |},
        h', running').
Proof using Type.
  intros Hx Ht Hok. unfold train_pass, pass_result. cbn [fst snd].
  rewrite (getitem_nat _ _ _ Hx). cbn [mbind result_bind].
  destruct (rnn _ _ _ _ _) as [[output h2] g2].
  rewrite (getitem_nat _ _ [t]) by by rewrite list_lookup_fmap, Ht.
  cbn [mbind result_bind]. unfold nll_loss.
  rewrite decide_True by by apply Forall_singleton.
  cbn [mbind result_bind]. by intros [= <- <- <-].
Qed.

(** After [k] passes the loop has called the network and the criterion on
    the first [k] timesteps, and only then does it hold a loss. *)
Lemma train_passes cat (input : tensor3) (targets : list Z)
    (st : learner') (h : Hidden) k :
  k ≤ length input → k ≤ length targets →
  Forall nll_target_ok (take k targets) →
  ∃ g' h' running,
    pass_results' (net _ _ st) cat (torch_rng _ _ st) h
      (take k input) (take k targets) = (g', h', running)
    ∧ for_each (train_pass' cat input ((λ t, [t]) <$> targets))
        (st, h, None) (seq 0 k)
      = Ok ({| net := net _ _ st; torch_rng := g';
               net_calls := net_calls _ _ st
                            ++ pass_calls cat (take k input) (take k targets)
            |}, h', running)
    ∧ (running = None ↔ k = 0).
Proof using Type.
  induction k as [|k IH]; intros Hki Hkt Hok.
  - exists (torch_rng _ _ st), h, None. cbn. unfold pass_calls. cbn.
    rewrite app_nil_r. by destruct st.
  - destruct (lookup_lt_is_Some_2 input k) as [x Hx]; [lia|].
    destruct (lookup_lt_is_Some_2 targets k) as [t Ht]; [lia|].
    rewrite (take_S_r _ _ _ Ht) in Hok. apply Forall_app in Hok as [Hok Hokt].
    rewrite Forall_singleton in Hokt.
    destruct IH as (g1 & h1 & running & Hres & Hloop & _); [lia | lia | done |].
    destruct (pass_result' (net _ _ st) cat (g1, h1, running) (x, t))
      as [[g2 h2] running2] eqn:Hstep.
    exists g2, h2, running2. split_and!.
    + unfold pass_results in *.
      rewrite (take_S_r _ _ _ Hx), (take_S_r _ _ _ Ht).
      rewrite zip_with_app by (rewrite !length_take; lia).
      rewrite foldl_app, Hres. cbn [zip_with foldl]. done.
    + rewrite seq_S, for_each_snoc, Hloop. cbn [mbind result_bind plus].
      rewrite (train_pass_Ok cat input targets _ h1 running k x t g2 h2
                 running2 Hx Ht Hokt) by done.
      cbn [net net_calls]. do 3 f_equal.
      rewrite <- app_assoc. f_equal.
      rewrite (take_S_r _ _ _ Hx), (take_S_r _ _ _ Ht). unfold pass_calls.
      rewrite zip_with_app by (rewrite !length_take; lia).
      cbn [zip_with]. by rewrite join_app.
    + split; [|done]. intros ->. unfold pass_result in Hstep.
      destruct (rnn _ _ _ _ _) as [[? ?] ?]. done.
Qed.

Lemma train_Done (st : learner') cat (input : tensor3) (targets : list Z) :
  input ≠ [] → length input ≤ length targets →
  Forall nll_target_ok (take (length input) targets) →
  ∃ g' h' loss output,
    pass_results' (zero_grad (net _ _ st)) cat (torch_rng _ _ st)
      (initHidden (net _ _ st)) input (take (length input) targets)
    = (g', h', Some (loss, output))
    ∧ train' st cat input targets
      = Done (output, item_div loss (length input),
              {| net := update_parameters
                          (backward loss (zero_grad (net _ _ st)));
                 torch_rng := g';
                 net_calls := net_calls _ _ st ++ [CallZeroGrad]
                   ++ pass_calls cat input (take (length input) targets)
                   ++ [CallBackward; CallUpdate] |}).
Proof using Type.
  intros Hne Hlen Hok. unfold train.
  destruct (train_passes cat input targets
              {| net := zero_grad (net _ _ st);
                 torch_rng := torch_rng _ _ st;
                 net_calls := net_calls _ _ st ++ [CallZeroGrad] |}
              (initHidden (net _ _ st)) (length input))
    as (g' & h' & running & Hres & -> & Hrun); [lia | lia | done |].
  cbn [lift mbind outcome_bind net torch_rng net_calls] in *.
  rewrite firstn_all in Hres.
  destruct running as [[loss output]|].
  - exists g', h', loss, output. split; [done|].
    rewrite firstn_all. by rewrite <- !app_assoc.
  - destruct input; [done|]. pose proof (proj1 Hrun eq_refl). done.
Qed.




End TrainFacts.

Lemma pass_calls_length cat (input : tensor3) (targets : list Z) :
  length input = length targets →
  length (pass_calls cat input targets) = 2 * length input.
Proof.
  unfold pass_calls. revert targets.
  induction input as [|x input IH]; intros [|t targets] Hl; cbn in *;
    try done.
  rewrite IH by lia. lia.
Qed.

(** X16. A training step on the tensors the encoders make of a known
    category and of a non-empty name whose letters after the first are in
    [all_letters] succeeds. It clears the gradients once, then calls the
    network and the criterion once per letter, in order, each time on that
    timestep and its target, then back-propagates the summed loss through
    the network with cleared gradients and updates its parameters once.
    It returns the output of the last timestep and the summed loss divided
    by the length of the name. *)
Theorem train_one_call_per_timestep
    (Net Hidden Output Loss Rng Number : Type)
    (rnn : Net → Rng → tensor2 → tensor2 → Hidden → Output * Hidden * Rng)
    (initHidden : Net → Hidden) (zero_grad : Net → Net)
    (criterion : Output → list Z → Loss)
    (loss_radd_zero : Loss → Loss) (loss_add : Loss → Loss → Loss)
    (backward : Loss → Net → Net) (update_parameters : Net → Net)
    (item_div : Loss → nat → Number)
    (all_categories : list str)
    (st : learner Net Rng) (category line : str)
    (Hcat : category ∈ all_categories)
    (Hne : line ≠ [])
    (Hletters : Forall (λ c, c ∈ all_letters) (drop 1 line)) :
  ∃ category_tensor input_line_tensor target_line_tensor rng' hidden'
    loss output,
    categoryTensor all_categories category = Ok category_tensor
    ∧ inputTensor line = Ok input_line_tensor
    ∧ targetTensor line = Ok target_line_tensor
    ∧ length input_line_tensor = length line
    ∧ length target_line_tensor = length line
    ∧ pass_results Net Hidden Output Loss Rng rnn criterion loss_radd_zero
        loss_add (zero_grad (net _ _ st)) category_tensor (torch_rng _ _ st)
        (initHidden (net _ _ st)) input_line_tensor target_line_tensor
      = (rng', hidden', Some (loss, output))
    ∧ train Net Hidden Output Loss Rng Number rnn initHidden zero_grad
        criterion loss_radd_zero loss_add backward update_parameters item_div
        st category_tensor input_line_tensor target_line_tensor
      = Done (output, item_div loss (length line),
              {| net := update_parameters
                          (backward loss (zero_grad (net _ _ st)));
                 torch_rng := rng';
                 net_calls := net_calls _ _ st ++ [CallZeroGrad]
                   ++ pass_calls category_tensor input_line_tensor
                        target_line_tensor
                   ++ [CallBackward; CallUpdate] |})
    ∧ length (pass_calls category_tensor input_line_tensor
                target_line_tensor)
      = 2 * length line.
Proof.
  destruct (index_elem all_categories category Hcat) as (k & Hk & _).
  set (targets := (find all_letters <$> drop 1 line)
                    ++ [(Z.of_nat n_letters - 1)%Z]).
  assert (length targets = length line) as Hlt.
  { unfold targets. rewrite length_app, length_fmap, length_drop. cbn.
    destruct line; [done | cbn; lia]. }
  assert (length (hot <$> line) = length line) as Hli
    by by rewrite length_fmap.
  destruct (train_Done Net Hidden Output Loss Rng Number rnn initHidden
              zero_grad criterion loss_radd_zero loss_add backward
              update_parameters item_div st
              [<[k:=1%Z]> (replicate (length all_categories) 0%Z)]
              (hot <$> line) targets)
    as (g' & h' & loss & output & Hres & Htrain).
  { by destruct line. }
  { lia. }
  { rewrite take_ge by lia. by apply encoded_targets_ok. }
  rewrite take_ge in Hres, Htrain by lia. rewrite Hli in Htrain.
  eexists _, (hot <$> line), targets, g', h', loss, output.
  split_and!; [by apply categoryTensor_Ok | apply inputTensor_Ok
               | apply targetTensor_Ok | done | done | done | done |].
  rewrite pass_calls_length; lia.
Qed.

Lemma train_one_call_per_timestep_witness :
  let rnn := λ (n g : nat) (c i : tensor2) (h : unit), (g, h, S g) in
  let criterion := λ (o : nat) (t : list Z), o in
  let st := {| net := 0; torch_rng := 0; net_calls := [] |} in
  let all_categories := [of_string "Russian"; of_string "Irish"] in
  let category := of_string "Irish" in
  let line := of_string "Abe" in
  ∃ category_tensor input_line_tensor target_line_tensor rng' hidden'
    loss output,
    categoryTensor all_categories category = Ok category_tensor
    ∧ inputTensor line = Ok input_line_tensor
    ∧ targetTensor line = Ok target_line_tensor
    ∧ length input_line_tensor = length line
    ∧ length target_line_tensor = length line
    ∧ pass_results nat unit nat nat nat rnn criterion (λ l, l) Nat.add
        ((λ n, n) (net _ _ st)) category_tensor (torch_rng _ _ st)
        ((λ _, ()) (net _ _ st)) input_line_tensor target_line_tensor
      = (rng', hidden', Some (loss, output))
    ∧ train nat unit nat nat nat nat rnn (λ _, ()) (λ n, n) criterion
        (λ l, l) Nat.add (λ _ n, S n) (λ n, n) (λ l _, l)
        st category_tensor input_line_tensor target_line_tensor
      = Done (output, (λ l _, l) loss (length line),
              {| net := (λ n, n) ((λ _ n, S n) loss ((λ n, n) (net _ _ st)));
                 torch_rng := rng';
                 net_calls := net_calls _ _ st ++ [CallZeroGrad]
                   ++ pass_calls category_tensor input_line_tensor
                        target_line_tensor
                   ++ [CallBackward; CallUpdate] |})
    ∧ length (pass_calls category_tensor input_line_tensor
                target_line_tensor)
      = 2 * length line.
Proof.
  intros rnn criterion st all_categories category line.
  apply (train_one_call_per_timestep nat unit nat nat nat nat rnn (λ _, ())
           (λ n, n) criterion (λ l, l) Nat.add (λ _ n, S n) (λ n, n)
           (λ l _, l) all_categories st category line).
  - by_computation.
  - discriminate.
  - by_computation.
Defined.

(** The name [a!] has the target [-1] for its unknown second letter, and
    the criterion refuses it: the training step fails with [IndexError]. *)
Example train_unknown_letter :
  let rnn := λ (n g : nat) (c i : tensor2) (h : unit), (g, h, S g) in
  let criterion := λ (o : nat) (t : list Z), o in
  let st := {| net := 0; torch_rng := 0; net_calls := [] |} in
  targetTensor (of_string "a!") = Ok [-1; 58]%Z
  ∧ train nat unit nat nat nat nat rnn (λ _, ()) (λ n, n) criterion
      (λ l, l) Nat.add (λ _ n, S n) (λ n, n) (λ l _, l)
      st [[1; 0]%Z] (hot <$> of_string "a!") [-1; 58]%Z
    = Failed (Std IndexError).
Proof. split; vm_compute; reflexivity. Qed.



(** ** The training loop *)

Lemma index_Ok_elem {A} `{EqDecision A} (l : list A) (x : A) k :
  index l x = Ok k → x ∈ l.
Proof.
  unfold index. destruct (list_find _ _) as [[k' y]|] eqn:Hf; [|done].
  intros _. apply list_find_Some in Hf as (Hk & -> & _).
  by eapply list_elem_of_lookup_2.
Qed.

Lemma div_mod_succ q n :
  q ≠ 0 →
  (S n `mod` q = 0 → S n / q = S (n / q) ∧ S n = S (n / q) * q)
  ∧ (S n `mod` q ≠ 0 → S n / q = n / q).
Proof.
  intros Hq.
  pose proof (Nat.div_mod_eq n q) as Hn.
  pose proof (Nat.div_mod_eq (S n) q) as HSn.
  pose proof (Nat.mod_upper_bound n q Hq) as Hr.
  pose proof (Nat.mod_upper_bound (S n) q Hq) as HSr.
  revert Hn HSn Hr HSr.
  generalize (S n `mod` q) (n `mod` q) (S n / q) (n / q).
  intros r' r d' d Hn HSn Hr HSr. split; intros Hm.
  - assert (d' = S d) as ->.
    { destruct (Nat.lt_trichotomy d' (S d)) as [|[|]]; [|done|]; nia. }
    split; [done|]. rewrite (Nat.mul_comm (S d) q). lia.
  - destruct (Nat.lt_trichotomy d' d) as [|[|]]; [|done|]; nia.
Qed.

Lemma for_range_snoc {S} (body : S → nat → outcome S) s l i :
  for_range body s (l ++ [i]) = (s' ← for_range body s l; body s' i).
Proof.
  revert s. induction l as [|j l IH]; intros s; simpl.
  - by destruct (body s i).
  - destruct (body s j) as [s1|e]; simpl; [apply IH | done].
Qed.

Section LoopFacts.
Variables (Net Hidden Output Loss Rng Number : Type).
Variable rnn : Net → Rng → tensor2 → tensor2 → Hidden → Output * Hidden * Rng.
Variable initHidden : Net → Hidden.
Variable zero_grad : Net → Net.
Variable criterion : Output → list Z → Loss.
Variable loss_radd_zero : Loss → Loss.
Variable loss_add : Loss → Loss → Loss.
Variable backward : Loss → Net → Net.
Variable update_parameters : Net → Net.
Variable item_div : Loss → nat → Number.
Variable all_categories : list str.
Variable category_lines : gmap str (list str).
Variable PyRng : Type.
Variable random_draw : PyRng → Z → Z → Z * PyRng.
Variable number_zero : Number.
Variable number_add : Number → Number → Number.
Variable number_div : Number → nat → Number.
Variables print_every plot_every : nat.

Hypothesis random_draw_ok : within_bounds random_draw.
Hypothesis data_ok : trainable all_categories category_lines.
Hypothesis print_every_ok : print_every ≠ 0.
Hypothesis plot_every_ok : plot_every ≠ 0.

Abbreviation progress' := (progress Net Rng Number PyRng).
Abbreviation training_pass' :=
  (training_pass Net Hidden Output Loss Rng Number rnn initHidden zero_grad
     criterion loss_radd_zero loss_add backward update_parameters item_div
     all_categories category_lines PyRng random_draw number_zero number_add
     number_div print_every plot_every).
Abbreviation average' :=
  (block_average number_zero number_add number_div plot_every).
Abbreviation iteration' :=
  (iteration Net Hidden Output Loss Rng Number rnn initHidden zero_grad
     criterion loss_radd_zero loss_add backward update_parameters item_div
     all_categories category_lines PyRng random_draw).
Abbreviation iterations' :=
  (iterations Net Hidden Output Loss Rng Number rnn initHidden zero_grad
     criterion loss_radd_zero loss_add backward update_parameters item_div
     all_categories category_lines PyRng random_draw).

Lemma training_pass_Done (st : progress') iter :
  ∃ loss st',
    iteration' (rnn_state _ _ _ _ st, py_rng _ _ _ _ st)
    = Done (loss, (rnn_state _ _ _ _ st', py_rng _ _ _ _ st'))
    ∧ training_pass' st iter = Done st'
    ∧ printed _ _ _ _ st'
      = printed _ _ _ _ st
        ++ (if decide (iter `mod` print_every = 0) then [(iter, loss)] else [])
    ∧ (if decide (iter `mod` plot_every = 0)
       then all_losses _ _ _ _ st'
            = all_losses _ _ _ _ st
              ++ [number_div (number_add (total_loss _ _ _ _ st) loss)
                    plot_every]
            ∧ total_loss _ _ _ _ st' = number_zero
       else all_losses _ _ _ _ st' = all_losses _ _ _ _ st
            ∧ total_loss _ _ _ _ st'
              = number_add (total_loss _ _ _ _ st) loss).
Proof using random_draw_ok data_ok print_every_ok plot_every_ok.
  destruct data_ok as [Hne Hlines]. unfold training_pass, iteration.
  cbn [fst snd].
  destruct (randomTrainingExample_Ok PyRng random_draw random_draw_ok
              all_categories category_lines (py_rng _ _ _ _ st) Hne)
    as (category & lines & line & g' & k & -> & Hk & Hl & Hline).
  { intros c Hc. destruct (Hlines c Hc) as (ls & ? & ? & _). eauto. }
  cbn [lift mbind outcome_bind].
  assert (line ≠ [] ∧ Forall (λ x, x ∈ all_letters) line)
    as [Hline_ne Hletters].
  { destruct (Hlines category) as (ls & Hls & _ & Hall).
    - by eapply index_Ok_elem.
    - rewrite Hl in Hls. injection Hls as <-.
      rewrite Forall_forall in Hall. by apply Hall. }
  assert (length ((find all_letters <$> drop 1 line)
                    ++ [(Z.of_nat n_letters - 1)%Z]) = length line) as Hlt.
  { rewrite length_app, length_fmap, length_drop. cbn.
    destruct line; [done | cbn; lia]. }
  destruct (train_Done Net Hidden Output Loss Rng Number rnn initHidden
              zero_grad criterion loss_radd_zero loss_add backward
              update_parameters item_div (rnn_state _ _ _ _ st)
              [<[k:=1%Z]> (replicate (length all_categories) 0%Z)]
              (hot <$> line)
              ((find all_letters <$> drop 1 line)
                 ++ [(Z.of_nat n_letters - 1)%Z]))
    as (g2 & h2 & loss & output & _ & ->).
  { by destruct line. }
  { rewrite length_fmap. lia. }
  { rewrite take_ge by (rewrite length_fmap; lia).
    apply encoded_targets_ok. by apply Forall_drop. }
  cbn [mbind outcome_bind]. unfold py_mod.
  rewrite !decide_False by done. cbn [mbind outcome_bind].
  eexists.
  destruct (decide (iter `mod` print_every = 0));
    destruct (decide (iter `mod` plot_every = 0));
    eexists; refine (conj _ (conj eq_refl _));
    cbn; rewrite ?app_nil_r; split_and?; done.
Qed.

Lemma block_average_snoc (losses : list Number) x k :
  S k * plot_every ≤ length losses →
  average' (losses ++ [x]) k = average' losses k.
Proof using plot_every_ok print_every_ok.
  intros Hk. unfold block_average. do 2 f_equal.
  rewrite drop_app_le by lia. rewrite take_app_le; [done|].
  rewrite length_drop. lia.
Qed.

Lemma training_loop_inv n (st0 : progress') :
  total_loss _ _ _ _ st0 = number_zero →
  all_losses _ _ _ _ st0 = [] →
  printed _ _ _ _ st0 = [] →
  ∃ losses st',
    for_range training_pass' st0 (seq 1 n) = Done st'
    ∧ iterations' n (rnn_state _ _ _ _ st0, py_rng _ _ _ _ st0)
      = Done (losses, (rnn_state _ _ _ _ st', py_rng _ _ _ _ st'))
    ∧ length losses = n
    ∧ all_losses _ _ _ _ st' = average' losses <$> seq 0 (n / plot_every)
    ∧ total_loss _ _ _ _ st'
      = foldl number_add number_zero
          (drop (n / plot_every * plot_every) losses)
    ∧ printed _ _ _ _ st'
      = filter (λ il, il.1 `mod` print_every = 0) (zip (seq 1 n) losses).
Proof using random_draw_ok data_ok print_every_ok plot_every_ok.
  intros Htotal Hall Hprinted. induction n as [|n IH].
  - exists [], st0. rewrite Nat.Div0.div_0_l. cbn. done.
  - destruct IH as (losses & st1 & Hloop & Hiter & Hlen & Hav & Htot & Hpr).
    rewrite seq_S, for_range_snoc, Hloop. cbn [mbind outcome_bind plus].
    destruct (training_pass_Done st1 (S n))
      as (x & st2 & Hit & -> & Hpr2 & Hav2).
    exists (losses ++ [x]), st2.
    pose proof (Nat.div_mod_eq n plot_every) as Hdm.
    assert (n / plot_every * plot_every ≤ n) as Hle by lia.
    assert (average' (losses ++ [x]) <$> seq 0 (n / plot_every)
            = average' losses <$> seq 0 (n / plot_every)) as Hold.
    { apply list_fmap_ext. intros i k Hk. apply block_average_snoc.
      apply lookup_seq in Hk as [-> Hk]. cbn. nia. }
    assert (foldl number_add number_zero
              (drop (n / plot_every * plot_every) (losses ++ [x]))
            = number_add (total_loss _ _ _ _ st1) x) as Hsum.
    { rewrite drop_app_le by lia. by rewrite foldl_app, <- Htot. }
    split_and!.
    + done.
    + cbn [iterations]. rewrite Hiter. cbn [mbind outcome_bind].
      rewrite Hit. done.
    + rewrite length_app. cbn. lia.
    + destruct (div_mod_succ plot_every n plot_every_ok) as [Hzero Hpos].
      case_decide as Hm.
      * destruct (Hzero Hm) as [-> Hfull]. destruct Hav2 as [-> _].
        rewrite seq_S, fmap_app, Hold, Hav. cbn [plus fmap list_fmap].
        f_equal. f_equal. unfold block_average.
        rewrite <- Hsum, take_ge; [done|].
        rewrite length_drop, length_app. cbn. nia.
      * rewrite (Hpos Hm). destruct Hav2 as [-> _]. by rewrite Hold.
    + destruct (div_mod_succ plot_every n plot_every_ok) as [Hzero Hpos].
      case_decide as Hm.
      * destruct (Hzero Hm) as [-> Hfull]. destruct Hav2 as [_ ->].
        rewrite drop_ge; [done|]. rewrite length_app. cbn. lia.
      * rewrite (Hpos Hm). destruct Hav2 as [_ ->]. by rewrite Hsum.
    + rewrite Hpr2, Hpr.
      rewrite zip_with_app by by rewrite length_seq.
      rewrite filter_app. by f_equal.
Qed.
End LoopFacts.

(** X18. On data with at least one category, whose categories all have
    names, every name non-empty and written with the letters of
    [all_letters], and with non-zero [print_every] and [plot_every], the
    training loop runs all its iterations. Each iteration draws a random
    training example and runs [train] on it; [losses] are the losses these
    calls of [train] return, in order, and the loop ends with the network
    and the generator the last of them leaves. [all_losses] ends up with
    one entry per full block of [plot_every] iterations, the sum of that
    block's losses (started from [0]) divided by [plot_every];
    [total_loss] holds the sum over the iterations after the last full
    block; a line is printed at exactly the iterations that are multiples of
    [print_every], with the loss of that iteration. *)
Theorem training_loop_averages
    (Net Hidden Output Loss Rng Number : Type)
    (rnn : Net → Rng → tensor2 → tensor2 → Hidden → Output * Hidden * Rng)
    (initHidden : Net → Hidden) (zero_grad : Net → Net)
    (criterion : Output → list Z → Loss)
    (loss_radd_zero : Loss → Loss) (loss_add : Loss → Loss → Loss)
    (backward : Loss → Net → Net) (update_parameters : Net → Net)
    (item_div : Loss → nat → Number)
    (all_categories : list str) (category_lines : gmap str (list str))
    (PyRng : Type) (random_draw : PyRng → Z → Z → Z * PyRng)
    (number_zero : Number) (number_add : Number → Number → Number)
    (number_div : Number → nat → Number)
    (n_iters print_every plot_every : nat)
    (l0 : learner Net Rng) (g0 : PyRng)
    (Hdraw : within_bounds random_draw)
    (Hdata : trainable all_categories category_lines)
    (Hprint : print_every ≠ 0)
    (Hplot : plot_every ≠ 0) :
  ∃ losses st',
    training_loop Net Hidden Output Loss Rng Number rnn initHidden zero_grad
      criterion loss_radd_zero loss_add backward update_parameters item_div
      all_categories category_lines PyRng random_draw number_zero number_add
      number_div n_iters print_every plot_every
      {| rnn_state := l0; py_rng := g0; total_loss := number_zero;
         all_losses := []; printed := [] |}
    = Done st'
    ∧ iterations Net Hidden Output Loss Rng Number rnn initHidden zero_grad
        criterion loss_radd_zero loss_add backward update_parameters item_div
        all_categories category_lines PyRng random_draw n_iters (l0, g0)
      = Done (losses, (rnn_state _ _ _ _ st', py_rng _ _ _ _ st'))
    ∧ length losses = n_iters
    ∧ all_losses _ _ _ _ st'
      = block_average number_zero number_add number_div plot_every losses
          <$> seq 0 (n_iters / plot_every)
    ∧ length (all_losses _ _ _ _ st') = n_iters / plot_every
    ∧ total_loss _ _ _ _ st'
      = foldl number_add number_zero
          (drop (n_iters / plot_every * plot_every) losses)
    ∧ printed _ _ _ _ st'
      = filter (λ il, il.1 `mod` print_every = 0)
          (zip (seq 1 n_iters) losses).
Proof.
  destruct (training_loop_inv Net Hidden Output Loss Rng Number rnn initHidden
              zero_grad criterion loss_radd_zero loss_add backward
              update_parameters item_div all_categories category_lines PyRng
              random_draw number_zero number_add number_div print_every
              plot_every Hdraw Hdata Hprint Hplot n_iters
              {| rnn_state := l0; py_rng := g0; total_loss := number_zero;
                 all_losses := []; printed := [] |})
    as (losses & st' & Hloop & Hiter & Hlen & Hav & Htot & Hpr); [done..|].
  exists losses, st'.
  split_and!; [done | done | done | done | | done | done].
  by rewrite Hav, length_fmap, length_seq.
Qed.

Lemma training_loop_averages_witness :
  let rnn := λ (n g : nat) (c i : tensor2) (h : unit), (g, h, S g) in
  let criterion := λ (o : nat) (t : list Z), S o in
  let all_categories := [of_string "Russian"] in
  let category_lines : gmap str (list str) :=
    <[of_string "Russian" := [of_string "Ivanov"; of_string "Li"]]> ∅ in
  let l0 := {| net := 0; torch_rng := 0; net_calls := [] |} in
  ∃ losses st',
    training_loop nat unit nat nat nat nat rnn (λ _, ()) (λ n, n) criterion
      (λ l, l) Nat.add (λ _ n, S n) (λ n, n) (λ l _, l)
      all_categories category_lines Z counter_draw 0 Nat.add Nat.div
      5 2 2
      {| rnn_state := l0; py_rng := 0%Z; total_loss := 0;
         all_losses := []; printed := [] |}
    = Done st'
    ∧ iterations nat unit nat nat nat nat rnn (λ _, ()) (λ n, n) criterion
        (λ l, l) Nat.add (λ _ n, S n) (λ n, n) (λ l _, l)
        all_categories category_lines Z counter_draw 5 (l0, 0%Z)
      = Done (losses, (rnn_state _ _ _ _ st', py_rng _ _ _ _ st'))
    ∧ length losses = 5
    ∧ all_losses _ _ _ _ st'
      = block_average 0 Nat.add Nat.div 2 losses <$> seq 0 (5 / 2)
    ∧ length (all_losses _ _ _ _ st') = 5 / 2
    ∧ total_loss _ _ _ _ st'
      = foldl Nat.add 0 (drop (5 / 2 * 2) losses)
    ∧ printed _ _ _ _ st'
      = filter (λ il, il.1 `mod` 2 = 0) (zip (seq 1 5) losses).
Proof.
  intros rnn criterion all_categories category_lines l0.
  apply (training_loop_averages nat unit nat nat nat nat rnn (λ _, ())
           (λ n, n) criterion (λ l, l) Nat.add (λ _ n, S n) (λ n, n)
           (λ l _, l) all_categories category_lines Z counter_draw 0 Nat.add
           Nat.div 5 2 2 l0 0%Z).
  - intros g a b Hab. unfold counter_draw. cbn. lia.
  - split; [discriminate|]. intros c Hc.
    apply list_elem_of_singleton in Hc as ->.
    exists [of_string "Ivanov"; of_string "Li"].
    split_and!; [vm_compute; reflexivity | discriminate | by_computation].
  - lia.
  - lia.
Defined.

(** With the notebook's constants the loss history gets 200 entries and 20
    lines are printed. *)
Example notebook_constants :
  n_iters / plot_every = 200 ∧ n_iters / print_every = 20
  ∧ print_every ≠ 0 ∧ plot_every ≠ 0.
Proof. split_and!; [vm_compute; reflexivity.. | discriminate | discriminate]. Qed.
